(** * tetgen_stb.h: point location and ray traversal in a tetrahedral mesh

    A shallow embedding of the geometric core of [tetgen_stb.h]
    (vector primitives, [SameSide], [IsPointInTetrahedron],
    [GetTetrahedraFromPoint], [init_BBox], [GetExitTet], [traverse_ray],
    [traverse_until_point]) together with the properties of its
    specification.

    Conventions of the embedding.
    - A C++ [float] is an IEEE-754 binary32 value, [spec_float] of the
      standard library with precision 24 and exponent bound 128; every
      arithmetic operator rounds once, to nearest even.
    - [int32_t] and [int] values are integers of [Z]; the code only copies
      and compares them (the one counter that is incremented stays below 81).
    - An array read [a[i]] outside the array, the end of a value-returning
      function reached without [return], and the read of a local that was
      never assigned are undefined behaviour in C++: they are the faults of
      the [outcome] type.
    - A reference parameter ([rayhit &d], [int32_t &face]) is an input and
      an output of the function. *)

From Stdlib Require Import ZArith List Bool Lia.
From Stdlib Require Import Floats.SpecFloat.
Import ListNotations.
Local Open Scope Z_scope.

(** ** Binary32 arithmetic *)

Module F32.

Definition prec : Z := 24.
Definition emax : Z := 128.

Definition float : Type := spec_float.

Definition zero : float := S754_zero false.
Definition add : float -> float -> float := SFadd prec emax.
Definition sub : float -> float -> float := SFsub prec emax.
Definition mul : float -> float -> float := SFmul prec emax.
Definition opp : float -> float := SFopp.
Definition ltb : float -> float -> bool := SFltb.
Definition gtb (a b : float) : bool := SFltb b a.

(** The float nearest to the integer [n] (a literal such as [1] or
    [1e20], itself exact in [double], converted to [float]). *)
Definition of_Z (n : Z) : float := binary_normalize prec emax n 0 false.

(** The float nearest to [n / d], for a decimal literal such as [0.1]. *)
Definition of_ratio (n d : Z) : float :=
  SFdiv prec emax (of_Z n) (of_Z d).

End F32.

Definition float : Type := F32.float.

Declare Scope f32_scope.
Delimit Scope f32_scope with f32.
Infix "+" := F32.add : f32_scope.
Infix "-" := F32.sub : f32_scope.
Infix "*" := F32.mul : f32_scope.
Infix "<?" := F32.ltb : f32_scope.
Infix ">?" := F32.gtb : f32_scope.

(** ** Vector algebra primitives *)

Record float4 : Type := make_float4 { x : float; y : float; z : float; w : float }.

(** [operator-(const float4&, const float4&)]: the [w] component of the
    result is the literal 0. *)
Definition f4_sub (a b : float4) : float4 :=
  make_float4 (x a - x b)%f32 (y a - y b)%f32 (z a - z b)%f32 F32.zero.

Definition Dot (a b : float4) : float :=
  (x a * x b + y a * y b + z a * z b)%f32.

Definition Cross (a b : float4) : float4 :=
  make_float4 (y a * z b - z a * y b)%f32
              (z a * x b - x a * z b)%f32
              (x a * y b - y a * x b)%f32
              F32.zero.

(** Scalar triple product. *)
Definition ScTP (a b c : float4) : float := Dot a (Cross b c).

(** [signf(float f)] compares [f] with the [double] literal [0.0]; the
    promotion of [f] to [double] is exact. *)
Definition signf (f : float) : Z :=
  if (f >? F32.zero)%f32 then 1
  else if (f <? F32.zero)%f32 then -1
  else 0.

Definition SameSide (v1 v2 v3 v4 p : float4) : bool :=
  let normal := Cross (f4_sub v2 v1) (f4_sub v3 v1) in
  let dotV4 := Dot normal (f4_sub v4 v1) in
  let dotP := Dot normal (f4_sub p v1) in
  signf dotV4 =? signf dotP.

Definition IsPointInTetrahedron (v1 v2 v3 v4 p : float4) : bool :=
  SameSide v1 v2 v3 v4 p &&
  SameSide v2 v3 v4 v1 p &&
  SameSide v3 v4 v1 v2 p &&
  SameSide v4 v1 v2 v3 p.

(** ** Results of the traversal, bounding boxes *)

Record rayhit : Type := mk_rayhit {
  pos : float4;
  tet : Z;
  face : Z;
  depth : Z;
  wall : bool;
  constrained : bool;
  dark : bool
}.

(** The default member initialisers of [struct rayhit]; [pos] has none. *)
Definition rayhit_init (p : float4) : rayhit :=
  mk_rayhit p 0 0 0 false false false.

Definition set_depth (d : rayhit) (n : Z) : rayhit :=
  mk_rayhit (pos d) (tet d) (face d) n (wall d) (constrained d) (dark d).

(** [d.constrained = true; d.face = f; d.tet = t;] *)
Definition hit_constrained (d : rayhit) (f t : Z) : rayhit :=
  mk_rayhit (pos d) t f (depth d) (wall d) true (dark d).

(** [d.wall = true; d.face = f; d.tet = t;] *)
Definition hit_wall (d : rayhit) (f t : Z) : rayhit :=
  mk_rayhit (pos d) t f (depth d) true (constrained d) (dark d).

(** [d.dark = true; d.face = f; d.tet = t;] *)
Definition hit_dark (d : rayhit) (f t : Z) : rayhit :=
  mk_rayhit (pos d) t f (depth d) (wall d) (constrained d) true.

(** [d.face = f; d.tet = t;] *)
Definition hit_target (d : rayhit) (f t : Z) : rayhit :=
  mk_rayhit (pos d) t f (depth d) (wall d) (constrained d) (dark d).

Record BBox : Type := mk_BBox { bb_min : float4; bb_max : float4 }.

(** ** Undefined behaviour as an error monad *)

Inductive fault : Type :=
| OutOfRange      (* an array read outside the array *)
| MissingReturn   (* end of a value-returning function without [return] *)
| Indeterminate   (* read of a local that was never assigned *)
| OutOfFuel.      (* the model's loop budget ran out; never the code's *)

Inductive outcome (A : Type) : Type :=
| Ok (a : A)
| Fault (e : fault).
Arguments Ok {A} a.
Arguments Fault {A} e.

Definition bind {A B : Type} (c : outcome A) (k : A -> outcome B) : outcome B :=
  match c with
  | Ok a => k a
  | Fault e => Fault e
  end.

Notation "v <- c ;; k" := (bind c (fun v => k))
  (at level 61, c at next level, right associativity).

(** [a[i]] for an array [a] held as a list. *)
Definition rd {A : Type} (a : list A) (i : Z) : outcome A :=
  if i <? 0 then Fault OutOfRange
  else match nth_error a (Z.to_nat i) with
       | Some v => Ok v
       | None => Fault OutOfRange
       end.

(** ** The mesh *)

(** Modelled from the spec: the declaration of [mesh2] is not part of the
    header; the functions use it as a structure of arrays, one array per
    attribute of the node, tetrahedron and face entities of the data model,
    with the counts [tetnum], [nodenum], [facenum]. ([make_float4] is not
    declared in the header either; it is the constructor of [float4].) *)
Record mesh2 : Type := mk_mesh2 {
  tetnum : Z;
  nodenum : Z;
  facenum : Z;
  n_x : list float;
  n_y : list float;
  n_z : list float;
  t_nindex1 : list Z; t_nindex2 : list Z; t_nindex3 : list Z; t_nindex4 : list Z;
  t_findex1 : list Z; t_findex2 : list Z; t_findex3 : list Z; t_findex4 : list Z;
  t_adjtet1 : list Z; t_adjtet2 : list Z; t_adjtet3 : list Z; t_adjtet4 : list Z;
  f_node_a : list Z; f_node_b : list Z; f_node_c : list Z;
  face_is_constrained : list bool;
  face_is_wall : list bool
}.

(** The C arrays of length four that the traversal builds on its stack. *)
Record arr4 (A : Type) : Type := Arr4 { at0 : A; at1 : A; at2 : A; at3 : A }.
Arguments Arr4 {A} _ _ _ _.
Arguments at0 {A} _.
Arguments at1 {A} _.
Arguments at2 {A} _.
Arguments at3 {A} _.

(** [make_float4(mesh->n_x[n], mesh->n_y[n], mesh->n_z[n], 0)] *)
Definition node_pos (m : mesh2) (n : Z) : outcome float4 :=
  px <- rd (n_x m) n ;;
  py <- rd (n_y m) n ;;
  pz <- rd (n_z m) n ;;
  Ok (make_float4 px py pz F32.zero).

(** The four vertex positions of tetrahedron [t]. *)
Definition tet_nodes (m : mesh2) (t : Z) : outcome (arr4 float4) :=
  i1 <- rd (t_nindex1 m) t ;; v1 <- node_pos m i1 ;;
  i2 <- rd (t_nindex2 m) t ;; v2 <- node_pos m i2 ;;
  i3 <- rd (t_nindex3 m) t ;; v3 <- node_pos m i3 ;;
  i4 <- rd (t_nindex4 m) t ;; v4 <- node_pos m i4 ;;
  Ok (Arr4 v1 v2 v3 v4).

Definition tet_findex (m : mesh2) (t : Z) : outcome (arr4 Z) :=
  f1 <- rd (t_findex1 m) t ;;
  f2 <- rd (t_findex2 m) t ;;
  f3 <- rd (t_findex3 m) t ;;
  f4 <- rd (t_findex4 m) t ;;
  Ok (Arr4 f1 f2 f3 f4).

Definition tet_adjtets (m : mesh2) (t : Z) : outcome (arr4 Z) :=
  a1 <- rd (t_adjtet1 m) t ;;
  a2 <- rd (t_adjtet2 m) t ;;
  a3 <- rd (t_adjtet3 m) t ;;
  a4 <- rd (t_adjtet4 m) t ;;
  Ok (Arr4 a1 a2 a3 a4).

(** ** Exit-face resolver *)

(** The signs of the six scalar triple products. The code keeps each
    product in a [double] and hands it back to [signf(float)], an exact
    round trip, and keeps each sign, the [int] -1, 0 or 1, in a [double]
    that it compares with 0. *)
Record signs : Type := mk_signs {
  sQAB : Z; sQBC : Z; sQAC : Z; sQAD : Z; sQBD : Z; sQCD : Z
}.

Definition edge_signs (ray_o ray_d : float4) (nodes : arr4 float4) : signs :=
  let q := ray_d in
  let v0 := make_float4 (x (at0 nodes)) (y (at0 nodes)) (z (at0 nodes)) F32.zero in
  let v1 := make_float4 (x (at1 nodes)) (y (at1 nodes)) (z (at1 nodes)) F32.zero in
  let v2 := make_float4 (x (at2 nodes)) (y (at2 nodes)) (z (at2 nodes)) F32.zero in
  let v3 := make_float4 (x (at3 nodes)) (y (at3 nodes)) (z (at3 nodes)) F32.zero in
  let p0 := f4_sub v0 ray_o in
  let p1 := f4_sub v1 ray_o in
  let p2 := f4_sub v2 ray_o in
  let p3 := f4_sub v3 ray_o in
  mk_signs (signf (ScTP q p0 p1)) (signf (ScTP q p1 p2)) (signf (ScTP q p0 p2))
           (signf (ScTP q p0 p3)) (signf (ScTP q p1 p3)) (signf (ScTP q p2 p3)).

Definition nonzero (s : Z) : bool := negb (s =? 0).

(** The four exit conditions: the outer guard and the inner sign pattern
    of each of the four chained conditionals. *)
Definition exit_ABC (s : signs) : bool :=
  (nonzero (sQAB s) && nonzero (sQAC s) && nonzero (sQBC s)) &&
  ((sQAB s <? 0) && (sQAC s >? 0) && (sQBC s <? 0)).

Definition exit_BAD (s : signs) : bool :=
  (nonzero (sQAB s) && nonzero (sQAD s) && nonzero (sQBD s)) &&
  ((sQAB s >? 0) && (sQAD s <? 0) && (sQBD s >? 0)).

Definition exit_CDA (s : signs) : bool :=
  (nonzero (sQAD s) && nonzero (sQAC s) && nonzero (sQCD s)) &&
  ((sQAD s >? 0) && (sQAC s <? 0) && (sQCD s <? 0)).

Definition exit_DCB (s : signs) : bool :=
  (nonzero (sQBC s) && nonzero (sQBD s) && nonzero (sQCD s)) &&
  ((sQBC s >? 0) && (sQBD s <? 0) && (sQCD s >? 0)).

(** The chained conditionals, on the pair of outputs [(face, tet)]. Each
    conditional that fires overwrites both. *)
Definition assign_if (c : bool) (v out : Z * Z) : Z * Z := if c then v else out.

Definition resolve_exit (s : signs) (findex adjtet : arr4 Z) : Z * Z :=
  let out := (0, 0) in
  let out := assign_if (exit_ABC s) (at3 findex, at3 adjtet) out in
  let out := assign_if (exit_BAD s) (at2 findex, at2 adjtet) out in
  let out := assign_if (exit_CDA s) (at1 findex, at1 adjtet) out in
  let out := assign_if (exit_DCB s) (at0 findex, at0 adjtet) out in
  out.

(** [GetExitTet]; the result is the pair of the reference parameters
    [(face, tet)]. The parameter [lface] is not used by the body. *)
Definition GetExitTet (ray_o ray_d : float4) (nodes : arr4 float4)
    (findex adjtet : arr4 Z) (lface : Z) : Z * Z :=
  resolve_exit (edge_signs ray_o ray_d nodes) findex adjtet.

(** How many of the four conditionals assign the outputs. *)
Definition assignments (s : signs) : Z :=
  Z.b2z (exit_ABC s) + Z.b2z (exit_BAD s) + Z.b2z (exit_CDA s) + Z.b2z (exit_DCB s).

Definition no_exit_match (s : signs) : bool :=
  negb (exit_ABC s || exit_BAD s || exit_CDA s || exit_DCB s).

(** ** Point locator *)

(** [for (int i = 0; i < mesh->tetnum; i++) { ... return i; }] followed by
    the closing brace of the function: there is no [return] after the loop. *)
Fixpoint locate_from (fuel : nat) (m : mesh2) (p : float4) (i : Z) : outcome Z :=
  if i <? tetnum m then
    match fuel with
    | O => Fault OutOfFuel
    | S fuel' =>
        v <- tet_nodes m i ;;
        if IsPointInTetrahedron (at0 v) (at1 v) (at2 v) (at3 v) p then Ok i
        else locate_from fuel' m p (i + 1)
    end
  else Fault MissingReturn.

Definition GetTetrahedraFromPoint (m : mesh2) (p : float4) : outcome Z :=
  locate_from (Z.to_nat (tetnum m)) m p 0.

(** ** Bounding box *)

(** [#define inf 1e20], converted to [float] by [make_float4]. *)
Definition inf : float := F32.of_Z (10 ^ 20).

Definition bbox_update (b : BBox) (px py pz : float) : BBox :=
  let mn := bb_min b in
  let mx := bb_max b in
  let mnx := if (x mn <? px)%f32 then px else x mn in
  let mxx := if (x mx >? px)%f32 then px else x mx in
  let mny := if (y mn <? py)%f32 then py else y mn in
  let mxy := if (y mx >? py)%f32 then py else y mx in
  let mnz := if (z mn <? pz)%f32 then pz else z mn in
  let mxz := if (z mx >? pz)%f32 then pz else z mx in
  mk_BBox (make_float4 mnx mny mnz (w mn)) (make_float4 mxx mxy mxz (w mx)).

Fixpoint init_BBox_loop (fuel : nat) (m : mesh2) (i : Z) (b : BBox) : outcome BBox :=
  if i <? nodenum m then
    match fuel with
    | O => Fault OutOfFuel
    | S fuel' =>
        px <- rd (n_x m) i ;;
        py <- rd (n_y m) i ;;
        pz <- rd (n_z m) i ;;
        init_BBox_loop fuel' m (i + 1) (bbox_update b px py pz)
    end
  else Ok b.

Definition init_BBox (m : mesh2) : outcome BBox :=
  let boundingbox :=
    mk_BBox (make_float4 (F32.opp inf) (F32.opp inf) (F32.opp inf) F32.zero)
            (make_float4 inf inf inf F32.zero) in
  init_BBox_loop (Z.to_nat (nodenum m)) m 0 boundingbox.

(** ** Traversal state machine *)

(** The locals of [traverse_ray] and [traverse_until_point], with the
    result [d] they write. [nexttet] and [nextface] are declared without
    an initialiser. *)
Record walk : Type := mk_walk {
  current_tet : Z;
  nexttet : option Z;
  nextface : option Z;
  lastface : Z;
  hitfound : bool;
  hit : rayhit
}.

Definition incr_depth (s : walk) : walk :=
  mk_walk (current_tet s) (nexttet s) (nextface s) (lastface s) (hitfound s)
          (set_depth (hit s) (depth (hit s) + 1)).

(** The three stop tests that follow the call of [GetExitTet], in the
    order of the source; each is an [if] of its own. *)
Definition stop_tests (m : mesh2) (cur nf nt : Z) (dh : rayhit * bool)
    : outcome (rayhit * bool) :=
  c <- rd (face_is_constrained m) nf ;;
  let dh := if c then (hit_constrained (fst dh) nf cur, true) else dh in
  wl <- rd (face_is_wall m) nf ;;
  let dh := if wl then (hit_wall (fst dh) nf cur, true) else dh in
  let dh := if (nt =? -1) || (nf =? -1) then (hit_wall (fst dh) nf cur, true) else dh in
  Ok dh.

(** One pass through the body of the [for] loop. The two traversals have
    the same body but for the containment test of [traverse_until_point],
    which sits between the call of [GetExitTet] and the stop tests:
    [target] is [Some end] there and [None] in [traverse_ray]. *)
Definition walk_body (m : mesh2) (rayo rayd : float4) (target : option float4)
    (s : walk) : outcome walk :=
  if hitfound s then Ok s
  else
    let cur := current_tet s in
    findex <- tet_findex m cur ;;
    adjtets <- tet_adjtets m cur ;;
    nodes <- tet_nodes m cur ;;
    let '(nf, nt) := GetExitTet rayo rayd nodes findex adjtets (lastface s) in
    let dh :=
      match target with
      | Some e =>
          if IsPointInTetrahedron (at0 nodes) (at1 nodes) (at2 nodes) (at3 nodes) e
          then (hit_target (hit s) nf cur, true)
          else (hit s, false)
      | None => (hit s, false)
      end in
    dh <- stop_tests m cur nf nt dh ;;
    Ok (mk_walk nt (Some nt) (Some nf) nf (snd dh) (fst dh)).

(** [for (d.depth = 0; d.depth < 80; d.depth++) body]; the caller sets
    [d.depth = 0]. *)
Fixpoint walk_loop (fuel : nat) (m : mesh2) (rayo rayd : float4)
    (target : option float4) (s : walk) : outcome walk :=
  if depth (hit s) <? 80 then
    match fuel with
    | O => Fault OutOfFuel
    | S fuel' =>
        s' <- walk_body m rayo rayd target s ;;
        walk_loop fuel' m rayo rayd target (incr_depth s')
    end
  else Ok s.

(** The statement after the loop: [if (!hitfound) { d.dark = true;
    d.face = nextface; d.tet = current_tet; }]. *)
Definition walk_finish (s : walk) : outcome rayhit :=
  if hitfound s then Ok (hit s)
  else match nextface s with
       | Some nf => Ok (hit_dark (hit s) nf (current_tet s))
       | None => Fault Indeterminate
       end.

Definition walk_start (start : Z) (d : rayhit) : walk :=
  mk_walk start None None 0 false (set_depth d 0).

Definition traverse (m : mesh2) (rayo rayd : float4) (target : option float4)
    (start : Z) (d : rayhit) : outcome rayhit :=
  s <- walk_loop 80 m rayo rayd target (walk_start start d) ;;
  walk_finish s.

Definition traverse_ray (m : mesh2) (rayo rayd : float4) (start : Z) (d : rayhit)
    : outcome rayhit :=
  traverse m rayo rayd None start d.

Definition traverse_until_point (m : mesh2) (rayo rayd : float4) (start : Z)
    (e : float4) (d : rayhit) : outcome rayhit :=
  traverse m rayo rayd (Some e) start d.

(** ** Well-formed meshes *)

Definition in_range (lo hi v : Z) : bool := (lo <=? v) && (v <? hi).

Definition has_len {A : Type} (n : Z) (l : list A) : bool :=
  Z.of_nat (length l) =? n.

(** Every array has the length given by its count, node and face
    references are valid indices, and a neighbour is a valid index or the
    sentinel -1. *)
Definition mesh_wf (m : mesh2) : bool :=
  has_len (nodenum m) (n_x m) && has_len (nodenum m) (n_y m) &&
  has_len (nodenum m) (n_z m) &&
  forallb (has_len (tetnum m))
    [t_nindex1 m; t_nindex2 m; t_nindex3 m; t_nindex4 m;
     t_findex1 m; t_findex2 m; t_findex3 m; t_findex4 m;
     t_adjtet1 m; t_adjtet2 m; t_adjtet3 m; t_adjtet4 m] &&
  forallb (has_len (facenum m)) [f_node_a m; f_node_b m; f_node_c m] &&
  has_len (facenum m) (face_is_constrained m) &&
  has_len (facenum m) (face_is_wall m) &&
  forallb (forallb (in_range 0 (nodenum m)))
    [t_nindex1 m; t_nindex2 m; t_nindex3 m; t_nindex4 m] &&
  forallb (forallb (in_range 0 (facenum m)))
    [t_findex1 m; t_findex2 m; t_findex3 m; t_findex4 m] &&
  forallb (forallb (in_range (-1) (tetnum m)))
    [t_adjtet1 m; t_adjtet2 m; t_adjtet3 m; t_adjtet4 m].

Definition valid_tet (m : mesh2) (t : Z) : bool := in_range 0 (tetnum m) t.

(** ** Concrete meshes and rays *)

Definition vec (a b c : Z) : float4 :=
  make_float4 (F32.of_Z a) (F32.of_Z b) (F32.of_Z c) F32.zero.

(** The [float] written [0.1]. *)
Definition f0_1 : float := F32.of_ratio 1 10.

(** One tetrahedron A B C D with A at the origin and B, C, D at distance
    [k] on the three axes. Face [i] is the face opposite vertex [i], in the
    slot order of [GetExitTet] (D C B, C D A, B A D, A B C); there is no
    neighbour. The faces carry the flags given. *)
Definition corner_tet (k : Z) (cons walls : list bool) : mesh2 :=
  mk_mesh2 1 4 4
    (map F32.of_Z [0; k; 0; 0]) (map F32.of_Z [0; 0; k; 0]) (map F32.of_Z [0; 0; 0; k])
    [0] [1] [2] [3]
    [0] [1] [2] [3]
    [-1] [-1] [-1] [-1]
    [3; 2; 1; 0] [2; 3; 0; 1] [1; 0; 3; 2]
    cons walls.

(** The unit tetrahedron (0,0,0), (1,0,0), (0,1,0), (0,0,1) with its four
    faces walls. *)
Definition unit_tet : mesh2 :=
  corner_tet 1 [false; false; false; false] [true; true; true; true].

(** The same tetrahedron, face 0 flagged both constrained and wall. *)
Definition unit_tet_both : mesh2 :=
  corner_tet 1 [true; false; false; false] [true; true; true; true].

(** Two tetrahedra that share the face B C D (face 3, neither wall nor
    constrained). Tetrahedron 1 is A B C D with A = (0,0,0), B = (4,0,0),
    C = (0,4,0), D = (0,0,4) and faces 3, 4, 5, 6; tetrahedron 0 is
    E D C B with E = (4,4,4) and faces 3, 0, 1, 2. All faces but the
    shared one are walls. *)
Definition two_tets : mesh2 :=
  mk_mesh2 2 5 7
    (map F32.of_Z [0; 4; 0; 0; 4]) (map F32.of_Z [0; 0; 4; 0; 4])
    (map F32.of_Z [0; 0; 0; 4; 4])
    [4; 0] [3; 1] [2; 2] [1; 3]
    [3; 3] [0; 4] [1; 5] [2; 6]
    [1; 0] [-1; -1] [-1; -1] [-1; -1]
    [4; 4; 4; 1; 2; 1; 0] [3; 2; 1; 2; 3; 0; 1] [2; 1; 3; 3; 0; 3; 2]
    [false; false; false; false; false; false; false]
    [true; true; true; false; true; true; true].

(** A mesh without tetrahedra, nodes or faces. *)
Definition empty_mesh : mesh2 :=
  mk_mesh2 0 0 0 [] [] [] [] [] [] [] [] [] [] [] [] [] [] [] [] [] [] [] [].

Definition origin_0_1 : float4 := make_float4 f0_1 f0_1 f0_1 F32.zero.

(** ** Vocabulary of the properties *)

(** The containment predicate applied to tetrahedron [i] of the mesh. *)
Definition contains (m : mesh2) (p : float4) (i : Z) : outcome bool :=
  v <- tet_nodes m i ;;
  Ok (IsPointInTetrahedron (at0 v) (at1 v) (at2 v) (at3 v) p).

(** What [GetExitTet] resolves for tetrahedron [t], as the loop body calls it. *)
Definition exit_of (m : mesh2) (rayo rayd : float4) (t lface : Z) : outcome (Z * Z) :=
  findex <- tet_findex m t ;;
  adjtets <- tet_adjtets m t ;;
  nodes <- tet_nodes m t ;;
  Ok (GetExitTet rayo rayd nodes findex adjtets lface).

(** The three node indices of face [f]. *)
Definition face_nodes (m : mesh2) (f : Z) : outcome (Z * Z * Z) :=
  a <- rd (f_node_a m) f ;;
  b <- rd (f_node_b m) f ;;
  c <- rd (f_node_c m) f ;;
  Ok (a, b, c).

(** How many of the three flags of a result are set. *)
Definition flags_set (d : rayhit) : Z :=
  Z.b2z (wall d) + Z.b2z (constrained d) + Z.b2z (dark d).

(** The out-of-mesh test of the loop body. *)
Definition out_of_mesh (nt nf : Z) : bool := (nt =? -1) || (nf =? -1).

(** The containment test of [traverse_until_point]; [traverse_ray] has none. *)
Definition inside_target (target : option float4) (nodes : arr4 float4) : bool :=
  match target with
  | Some e => IsPointInTetrahedron (at0 nodes) (at1 nodes) (at2 nodes) (at3 nodes) e
  | None => false
  end.

(** The state after one pass of the loop body that started with
    [hitfound = false], resolved the exit [(nf, nt)] and read the flags
    [c] (constrained) and [wl] (wall) of face [nf]. *)
Definition step_result (target : option float4) (s : walk) (nodes : arr4 float4)
    (nf nt : Z) (c wl : bool) : walk :=
  let cur := current_tet s in
  let d := hit s in
  let stop := inside_target target nodes || c || wl || out_of_mesh nt nf in
  mk_walk nt (Some nt) (Some nf) nf stop
    (mk_rayhit (pos d) (if stop then cur else tet d) (if stop then nf else face d)
       (depth d) (wall d || wl || out_of_mesh nt nf) (constrained d || c) (dark d)).

(** The walk may go on: it has stopped or stands in a tetrahedron of the mesh. *)
Definition can_step (m : mesh2) (s : walk) : Prop :=
  hitfound s = true \/ valid_tet m (current_tet s) = true.

(** No face of tetrahedron [t] matches the ray. *)
Definition no_exit_in (m : mesh2) (rayo rayd : float4) (t : Z) : outcome bool :=
  nodes <- tet_nodes m t ;;
  Ok (no_exit_match (edge_signs rayo rayd nodes)).

(** [nextface] has been assigned, unless no pass of the body has run yet. *)
Definition exit_assigned (s : walk) : Prop :=
  (depth (hit s) = 0 /\ hitfound s = false) \/ nextface s <> None.

(** In [traverse_ray], [hitfound] is set together with [wall] or
    [constrained], and [dark] is not touched inside the loop. *)
Definition flags_follow_hit (s : walk) : Prop :=
  dark (hit s) = false /\ hitfound s = wall (hit s) || constrained (hit s).

(** ** Further functions of the header *)

(** [sqrtf] and [/] on [float]. *)
Definition f32_div : float -> float -> float := SFdiv F32.prec F32.emax.
Definition f32_sqrt : float -> float := SFsqrt F32.prec F32.emax.

(** [normalize]: the literal [1] is converted to [float] for the division. *)
Definition normalize (a : float4) : float4 :=
  let f := f32_div (F32.of_Z 1)
             (f32_sqrt (x a * x a + y a * y a + z a * z a)%f32) in
  make_float4 (x a * f)%f32 (y a * f)%f32 (z a * f)%f32 F32.zero.

Definition IsPointInThisTet (m : mesh2) (v : float4) (t : Z) : outcome bool :=
  nodes <- tet_nodes m t ;;
  if IsPointInTetrahedron (at0 nodes) (at1 nodes) (at2 nodes) (at3 nodes) v
  then Ok true else Ok false.

(** Binary64 arithmetic, for the expressions of [ConstrainToBBox] that mix
    a [float] with the [double] literal [0.2]: the [float] operands are
    promoted and the sum, the difference and the comparison are those of
    [double]. *)
Module F64.

Definition prec : Z := 53.
Definition emax : Z := 1024.

Definition add : spec_float -> spec_float -> spec_float := SFadd prec emax.
Definition sub : spec_float -> spec_float -> spec_float := SFsub prec emax.
Definition ltb : spec_float -> spec_float -> bool := SFltb.
Definition gtb (a b : spec_float) : bool := SFltb b a.

(** The promotion of a [float]: the same number in the [double] format. *)
Definition of_float (f : float) : spec_float :=
  match f with
  | S754_finite s m e => binary_normalize prec emax (cond_Zopp s (Zpos m)) e s
  | _ => f
  end.

(** The [double] written [0.2]. *)
Definition d0_2 : spec_float :=
  SFdiv prec emax (binary_normalize prec emax 2 0 false)
                  (binary_normalize prec emax 10 0 false).

End F64.

(** One axis of [ConstrainToBBox]: the two tests in sequence, the second
    on the coordinate the first may have replaced. *)
Definition constrain_axis (lo hi c : float) : float :=
  let c := if F64.ltb (F64.add (F64.of_float lo) F64.d0_2) (F64.of_float c)
           then lo else c in
  let c := if F64.gtb (F64.sub (F64.of_float hi) F64.d0_2) (F64.of_float c)
           then hi else c in
  c.

(** [ConstrainToBBox]; the result is the reference parameter [p]. *)
Definition ConstrainToBBox (boundingbox : BBox) (p : float4) : float4 :=
  make_float4
    (constrain_axis (x (bb_min boundingbox)) (x (bb_max boundingbox)) (x p))
    (constrain_axis (y (bb_min boundingbox)) (y (bb_max boundingbox)) (y p))
    (constrain_axis (z (bb_min boundingbox)) (z (bb_max boundingbox)) (z p))
    (w p).

(** ** Further vocabulary *)

Definition zero_or_nan (f : float) : bool :=
  match f with
  | S754_zero _ | S754_nan => true
  | _ => false
  end.

Definition is_nan (f : float) : bool :=
  match f with
  | S754_nan => true
  | _ => false
  end.

(** The three space components of a vector are zeros or NaN. *)
Definition null_vector (v : float4) : bool :=
  zero_or_nan (x v) && zero_or_nan (y v) && zero_or_nan (z v).

(** The side of the plane through [a], [b], [c] on which [d] lies, as
    [SameSide] computes it. *)
Definition orient (a b c d : float4) : Z :=
  signf (Dot (Cross (f4_sub b a) (f4_sub c a)) (f4_sub d a)).

(** None of the four vertices lies in the plane of the other three. *)
Definition nondegenerate (v1 v2 v3 v4 : float4) : bool :=
  nonzero (orient v1 v2 v3 v4) && nonzero (orient v2 v3 v4 v1) &&
  nonzero (orient v3 v4 v1 v2) && nonzero (orient v4 v1 v2 v3).

Definition same_point (a b : float4) : Prop :=
  x a = x b /\ y a = y b /\ z a = z b.

Definition nth4 {A : Type} (k : nat) (a : arr4 A) : A :=
  match k with
  | O => at0 a
  | 1%nat => at1 a
  | 2%nat => at2 a
  | _ => at3 a
  end.

(** A walk with a [break]: the passes of the loop body up to the first one
    that sets [hitfound], at most [n] of them. *)
Fixpoint first_stop (n : nat) (m : mesh2) (rayo rayd : float4)
    (target : option float4) (s : walk) : outcome walk :=
  match n with
  | O => Ok s
  | S n' =>
      s' <- walk_body m rayo rayd target s ;;
      if hitfound s' then Ok s' else first_stop n' m rayo rayd target s'
  end.

Definition with_depth (s : walk) (n : Z) : walk :=
  mk_walk (current_tet s) (nexttet s) (nextface s) (lastface s) (hitfound s)
          (set_depth (hit s) n).

(** The traversal written with that walk. *)
Definition traverse_with_break (m : mesh2) (rayo rayd : float4)
    (target : option float4) (start : Z) (d : rayhit) : outcome rayhit :=
  s <- first_stop 80 m rayo rayd target (walk_start start d) ;;
  walk_finish (with_depth s 80).

(** The components of the two corners a bounding box may hold: the two
    initial values and the coordinates read. *)
Definition corner_values (coords : list float) : list float :=
  F32.opp inf :: inf :: coords.

(** A mesh whose first tetrahedron has its four vertices at one node. *)
Definition collapsed_tet : mesh2 :=
  mk_mesh2 1 1 4
    (map F32.of_Z [3]) (map F32.of_Z [5]) (map F32.of_Z [7])
    [0] [0] [0] [0]
    [0] [1] [2] [3]
    [-1] [-1] [-1] [-1]
    [0; 0; 0; 0] [0; 0; 0; 0] [0; 0; 0; 0]
    [false; false; false; false] [true; true; true; true].

(** The indices of the tetrahedra, [0] to [tetnum - 1]. *)
Definition tet_indices (m : mesh2) : list Z :=
  map Z.of_nat (seq 0 (Z.to_nat (tetnum m))).

(** No tetrahedron of the mesh contains the point [e]. *)
Definition target_nowhere (m : mesh2) (e : float4) : bool :=
  forallb (fun t => match contains m e t with
                    | Ok true => false
                    | _ => true
                    end) (tet_indices m).

(** What [init_BBox] establishes on one axis after the first [n] nodes:
    each corner holds an initial value or a coordinate read, never NaN, and
    no coordinate read is above [mn] or below [mx]. *)
Definition bounds_axis (coords : list float) (n : Z) (mn mx : float) : Prop :=
  In mn (corner_values coords) /\ In mx (corner_values coords) /\
  is_nan mn = false /\ is_nan mx = false /\
  forall j v, 0 <= j < n -> rd coords j = Ok v ->
              (mn <? v)%f32 = false /\ (v <? mx)%f32 = false.

(** The two tests of [ConstrainToBBox] on a coordinate [c]. *)
Definition above_low (lo c : float) : bool :=
  F64.ltb (F64.add (F64.of_float lo) F64.d0_2) (F64.of_float c).

Definition below_high (hi c : float) : bool :=
  F64.gtb (F64.sub (F64.of_float hi) F64.d0_2) (F64.of_float c).

Definition is_zero (f : float) : bool :=
  match f with
  | S754_zero _ => true
  | _ => false
  end.

(** NaN or an infinity. *)
Definition not_finite (f : float) : bool :=
  match f with
  | S754_nan | S754_infinity _ => true
  | _ => false
  end.

(** ** The loaders of [tetrahedra_mesh]

    The loaders read a text file line by line and turn each line into a
    [std::vector<int32_t>] with an [istream_iterator]. The embedding starts
    behind that step: a file is the list of its lines, each line the list
    of the integers read from it, and a file that cannot be opened is
    [None]. The messages written to [std::cout] and [stderr] are left out
    but for the count [num] that the last message prints, which is returned
    with the mesh. [vector::at] and [deque::at] throw [std::out_of_range];
    no loader catches it, so a throw ends the load ([Raised]). A member
    without initialiser that was never assigned is [None]. *)
Module Loader.

Inductive loaded (A : Type) : Type :=
| Done (a : A)
| Raised        (* std::out_of_range *)
| Overflowed.   (* overflow of an [int] subtraction, undefined in C++ *)
Arguments Done {A} a.
Arguments Raised {A}.
Arguments Overflowed {A}.

Definition lbind {A B : Type} (c : loaded A) (k : A -> loaded B) : loaded B :=
  match c with
  | Done a => k a
  | Raised => Raised
  | Overflowed => Overflowed
  end.

Notation "v <~ c ;; k" := (lbind c (fun v => k))
  (at level 61, c at next level, right associativity).

(** The conversion of an [int32_t] to [uint32_t]. *)
Definition to_u32 (v : Z) : Z := v mod 2 ^ 32.

Record tetrahedra : Type := mk_tetrahedra {
  number : option Z;
  findex1 : option Z; findex2 : option Z; findex3 : option Z; findex4 : option Z;
  nindex1 : option Z; nindex2 : option Z; nindex3 : option Z; nindex4 : option Z;
  adjtet1 : option Z; adjtet2 : option Z; adjtet3 : option Z; adjtet4 : option Z
}.

Record face : Type := mk_face {
  f_index : option Z;
  node_a : option Z; node_b : option Z; node_c : option Z;
  face_is_constrained : bool;
  face_is_wall : bool
}.

Record edge : Type := mk_edge {
  e_index : option Z;
  node1 : option Z;
  node2 : option Z
}.

(** [tetrahedra tet1;], [face fc1;], [edge ed1;] *)
Definition tet1 : tetrahedra :=
  mk_tetrahedra None None None None None None None None None None None None None.
Definition fc1 : face := mk_face None None None None false false.
Definition ed1 : edge := mk_edge None None None.

(** The members of [tetrahedra_mesh] the integer loaders use. *)
Record tetrahedra_mesh : Type := mk_tetrahedra_mesh {
  tetnum : Z;
  facenum : Z;
  edgenum : Z;
  tetrahedras : list tetrahedra;
  faces : list face;
  edges : list edge;
  max : Z
}.

Definition set_tets (m : tetrahedra_mesh) (n : Z) (l : list tetrahedra) :=
  mk_tetrahedra_mesh n (facenum m) (edgenum m) l (faces m) (edges m) (max m).
Definition set_faces (m : tetrahedra_mesh) (n : Z) (l : list face) :=
  mk_tetrahedra_mesh (tetnum m) n (edgenum m) (tetrahedras m) l (edges m) (max m).
Definition set_edges (m : tetrahedra_mesh) (n : Z) (l : list edge) :=
  mk_tetrahedra_mesh (tetnum m) (facenum m) n (tetrahedras m) (faces m) l (max m).

(** [ints.at(k)] *)
Definition vec_at (ints : list Z) (k : nat) : loaded Z :=
  match nth_error ints k with
  | Some v => Done v
  | None => Raised
  end.

Fixpoint upd {A : Type} (l : list A) (k : nat) (f : A -> A) : option (list A) :=
  match l, k with
  | [], _ => None
  | a :: r, O => Some (f a :: r)
  | a :: r, S k' => match upd r k' f with
                    | Some r' => Some (a :: r')
                    | None => None
                    end
  end.

(** [q.at(i).member = v]: the index is converted to [size_t], so that a
    negative [i] is beyond every size. *)
Definition deque_set {A : Type} (q : list A) (i : Z) (f : A -> A) : loaded (list A) :=
  if i <? 0 then Raised
  else match upd q (Z.to_nat i) f with
       | Some q' => Done q'
       | None => Raised
       end.

(** [q.resize(n, v)] *)
Definition resize {A : Type} (n : Z) (v : A) (q : list A) : list A :=
  firstn (Z.to_nat n) q ++ repeat v (Z.to_nat n - length q).

(** [while (std::getline(myfile, line) && num < max) { ...; num++; }] *)
Fixpoint read_lines (line : Z -> list Z -> tetrahedra_mesh -> loaded tetrahedra_mesh)
    (lines : list (list Z)) (num : Z) (m : tetrahedra_mesh)
    : loaded (tetrahedra_mesh * Z) :=
  match lines with
  | [] => Done (m, num)
  | ints :: rest =>
      if num <? max m then
        m' <~ line num ints m ;;
        read_lines line rest (num + 1) m'
      else Done (m, num)
  end.

Definition load (line : Z -> list Z -> tetrahedra_mesh -> loaded tetrahedra_mesh)
    (file : option (list (list Z))) (m : tetrahedra_mesh)
    : loaded (tetrahedra_mesh * Z) :=
  match file with
  | Some lines => read_lines line lines 0 m
  | None => Done (m, 0)
  end.

Definition set_number v (t : tetrahedra) :=
  mk_tetrahedra (Some v) (findex1 t) (findex2 t) (findex3 t) (findex4 t)
    (nindex1 t) (nindex2 t) (nindex3 t) (nindex4 t)
    (adjtet1 t) (adjtet2 t) (adjtet3 t) (adjtet4 t).
Definition set_nindex (v1 v2 v3 v4 : Z) (t : tetrahedra) :=
  mk_tetrahedra (number t) (findex1 t) (findex2 t) (findex3 t) (findex4 t)
    (Some v1) (Some v2) (Some v3) (Some v4)
    (adjtet1 t) (adjtet2 t) (adjtet3 t) (adjtet4 t).
Definition set_adjtet (v1 v2 v3 v4 : Z) (t : tetrahedra) :=
  mk_tetrahedra (number t) (findex1 t) (findex2 t) (findex3 t) (findex4 t)
    (nindex1 t) (nindex2 t) (nindex3 t) (nindex4 t)
    (Some v1) (Some v2) (Some v3) (Some v4).
Definition set_findex (v1 v2 v3 v4 : Z) (t : tetrahedra) :=
  mk_tetrahedra (number t) (Some v1) (Some v2) (Some v3) (Some v4)
    (nindex1 t) (nindex2 t) (nindex3 t) (nindex4 t)
    (adjtet1 t) (adjtet2 t) (adjtet3 t) (adjtet4 t).

(** One line of [load_tet_ele]. *)
Definition ele_line (num : Z) (ints : list Z) (m : tetrahedra_mesh)
    : loaded tetrahedra_mesh :=
  if num =? 0 then
    n <~ vec_at ints 0 ;;
    Done (set_tets m (to_u32 n) (resize (to_u32 n) tet1 (tetrahedras m)))
  else if negb (Nat.eqb (length ints) 0) then
    i <~ vec_at ints 0 ;;
    q <~ deque_set (tetrahedras m) i (set_number (to_u32 i)) ;;
    v1 <~ vec_at ints 1 ;; v2 <~ vec_at ints 2 ;;
    v3 <~ vec_at ints 3 ;; v4 <~ vec_at ints 4 ;;
    q <~ deque_set q i (set_nindex v1 v2 v3 v4) ;;
    Done (set_tets m (tetnum m) q)
  else Done m.

(** One line of [load_tet_neigh]: the first line is skipped. *)
Definition neigh_line (num : Z) (ints : list Z) (m : tetrahedra_mesh)
    : loaded tetrahedra_mesh :=
  if negb (num =? 0) && negb (Nat.eqb (length ints) 0) then
    i <~ vec_at ints 0 ;;
    v1 <~ vec_at ints 1 ;; v2 <~ vec_at ints 2 ;;
    v3 <~ vec_at ints 3 ;; v4 <~ vec_at ints 4 ;;
    q <~ deque_set (tetrahedras m) i (set_adjtet v1 v2 v3 v4) ;;
    Done (set_tets m (tetnum m) q)
  else Done m.

(** One line of [load_tet_t2f]: every line is a row, and the row of the
    number [k] belongs to the tetrahedron [k - 1]. The right operand
    [ints.at(1)] of the first assignment is evaluated before the index
    [ints.at(0) - 1]. *)
Definition t2f_line (num : Z) (ints : list Z) (m : tetrahedra_mesh)
    : loaded tetrahedra_mesh :=
  if negb (Nat.eqb (length ints) 0) then
    i <~ vec_at ints 0 ;;
    v1 <~ vec_at ints 1 ;;
    if i =? - 2 ^ 31 then Overflowed
    else
      v2 <~ vec_at ints 2 ;; v3 <~ vec_at ints 3 ;; v4 <~ vec_at ints 4 ;;
      q <~ deque_set (tetrahedras m) (i - 1) (set_findex v1 v2 v3 v4) ;;
      Done (set_tets m (tetnum m) q)
  else Done m.

Definition set_face_nodes (i a b c : Z) (f : face) :=
  mk_face (Some (to_u32 i)) (Some (to_u32 a)) (Some (to_u32 b)) (Some (to_u32 c))
    (face_is_constrained f) (face_is_wall f).
Definition set_wall (f : face) :=
  mk_face (f_index f) (node_a f) (node_b f) (node_c f) (face_is_constrained f) true.
Definition set_constrained (f : face) :=
  mk_face (f_index f) (node_a f) (node_b f) (node_c f) true (face_is_wall f).

(** One line of [load_tet_face]. The test [ints.at(5) == -1 ||
    ints.at(6) == -1] reads column 6 only when column 5 is not -1, and
    column 4 is read only when neither is. *)
Definition face_line (num : Z) (ints : list Z) (m : tetrahedra_mesh)
    : loaded tetrahedra_mesh :=
  if num =? 0 then
    n <~ vec_at ints 0 ;;
    Done (set_faces m (to_u32 n) (resize (to_u32 n) fc1 (faces m)))
  else if negb (Nat.eqb (length ints) 0) then
    i <~ vec_at ints 0 ;;
    a <~ vec_at ints 1 ;; b <~ vec_at ints 2 ;; c <~ vec_at ints 3 ;;
    q <~ deque_set (faces m) i (set_face_nodes i a b c) ;;
    c5 <~ vec_at ints 5 ;;
    q <~ (if c5 =? -1 then deque_set q i set_wall
          else c6 <~ vec_at ints 6 ;;
               if c6 =? -1 then deque_set q i set_wall
               else c4 <~ vec_at ints 4 ;;
                    if c4 =? -1 then deque_set q i set_constrained
                    else Done q) ;;
    Done (set_faces m (facenum m) q)
  else Done m.

Definition set_edge_index (i : Z) (e : edge) := mk_edge (Some (to_u32 i)) (node1 e) (node2 e).
Definition set_node1 (v : Z) (e : edge) := mk_edge (e_index e) (Some (to_u32 v)) (node2 e).

(** One line of [load_tet_edge]: both endpoints are assigned to [node1]. *)
Definition edge_line (num : Z) (ints : list Z) (m : tetrahedra_mesh)
    : loaded tetrahedra_mesh :=
  if num =? 0 then
    n <~ vec_at ints 0 ;;
    Done (set_edges m (to_u32 n) (resize (to_u32 n) ed1 (edges m)))
  else if negb (Nat.eqb (length ints) 0) then
    i <~ vec_at ints 0 ;;
    q <~ deque_set (edges m) i (set_edge_index i) ;;
    v1 <~ vec_at ints 1 ;;
    q <~ deque_set q i (set_node1 v1) ;;
    v2 <~ vec_at ints 2 ;;
    q <~ deque_set q i (set_node1 v2) ;;
    Done (set_edges m (edgenum m) q)
  else Done m.

Definition load_tet_ele := load ele_line.
Definition load_tet_neigh := load neigh_line.
Definition load_tet_t2f := load t2f_line.
Definition load_tet_face := load face_line.
Definition load_tet_edge := load edge_line.

(** A mesh object before any load: empty collections. *)
Definition fresh (tn fn en mx : Z) : tetrahedra_mesh :=
  mk_tetrahedra_mesh tn fn en [] [] [] mx.

(** The first column of the rows that follow the header line. *)
Definition row_indices (lines : list (list Z)) : list Z :=
  flat_map (fun ints => match ints with
                        | i :: _ => [i]
                        | [] => []
                        end) (tl lines).

Definition both_flags (f : face) : bool := face_is_constrained f && face_is_wall f.

Definition unflagged (f : face) : Prop :=
  face_is_constrained f = false /\ face_is_wall f = false.

(** The load ended without a throw. *)
Definition accepted {A : Type} (r : loaded A) : bool :=
  match r with
  | Done _ => true
  | _ => false
  end.

(** The second endpoint of an edge was never assigned, and the first holds
    the third column of a row of the file, if anything. *)
Definition edge_as_loaded (lines : list (list Z)) (e : edge) : Prop :=
  node2 e = None /\
  (node1 e = None \/
   exists i a b rest, In (i :: a :: b :: rest) lines /\ node1 e = Some (to_u32 b)).

End Loader.

(** ** Meshes with regular face flags *)

(** No face carries both flags. *)
Definition exclusive_faces (m : mesh2) : bool :=
  forallb (fun cw => negb (fst cw && snd cw))
          (combine (face_is_constrained m) (face_is_wall m)).

(** The face in slot [(fl, al)] of tetrahedron [t] is not constrained when
    the slot has no neighbour. *)
Definition slot_regular (m : mesh2) (fl al : list Z) (t : Z) : bool :=
  match rd al t, rd fl t with
  | Ok a, Ok f =>
      if a =? -1
      then match rd (face_is_constrained m) f with
           | Ok true => false
           | _ => true
           end
      else true
  | _, _ => true
  end.

(** A constrained face has a tetrahedron behind it, in every slot of
    every tetrahedron. *)
Definition constrained_have_neighbours (m : mesh2) : bool :=
  forallb (fun t => slot_regular m (t_findex1 m) (t_adjtet1 m) t &&
                    slot_regular m (t_findex2 m) (t_adjtet2 m) t &&
                    slot_regular m (t_findex3 m) (t_adjtet3 m) t &&
                    slot_regular m (t_findex4 m) (t_adjtet4 m) t)
          (tet_indices m).

(** The common case of the face flags: a face is constrained or a wall,
    not both, and a face on the boundary of the mesh is not constrained. *)
Definition regular_flags (m : mesh2) : bool :=
  exclusive_faces m && constrained_have_neighbours m.

(** The two tetrahedra of [two_tets] with their shared face, which has a
    tetrahedron on either side, flagged both constrained and wall. *)
Definition two_tets_both : mesh2 :=
  mk_mesh2 2 5 7
    (n_x two_tets) (n_y two_tets) (n_z two_tets)
    (t_nindex1 two_tets) (t_nindex2 two_tets) (t_nindex3 two_tets) (t_nindex4 two_tets)
    (t_findex1 two_tets) (t_findex2 two_tets) (t_findex3 two_tets) (t_findex4 two_tets)
    (t_adjtet1 two_tets) (t_adjtet2 two_tets) (t_adjtet3 two_tets) (t_adjtet4 two_tets)
    (f_node_a two_tets) (f_node_b two_tets) (f_node_c two_tets)
    [false; false; false; true; false; false; false]
    [true; true; true; true; true; true; true].

(** The unit tetrahedron with face 0 constrained and not a wall, although
    there is no tetrahedron behind it. *)
Definition unit_tet_constrained : mesh2 :=
  corner_tet 1 [true; false; false; false] [false; true; true; true].

(** ** Array reads *)

Lemma rd_fault {A : Type} (a : list A) (i : Z) (e : fault) :
  rd a i = Fault e -> e = OutOfRange.
Proof.
  unfold rd. destruct (i <? 0).
  - intros H. now inversion H.
  - destruct (nth_error a (Z.to_nat i)); intros H; now inversion H.
Qed.

Lemma rd_in_range {A : Type} (n : Z) (a : list A) (i : Z) :
  has_len n a = true -> in_range 0 n i = true -> exists v, rd a i = Ok v.
Proof.
  unfold has_len, in_range, rd. intros Hl Hi.
  apply Z.eqb_eq in Hl. apply andb_prop in Hi. destruct Hi as [H0 H1].
  apply Z.leb_le in H0. apply Z.ltb_lt in H1.
  destruct (i <? 0) eqn:E; [apply Z.ltb_lt in E; lia|].
  destruct (nth_error a (Z.to_nat i)) eqn:N; [eauto|].
  apply nth_error_None in N. lia.
Qed.

Lemma rd_outside {A : Type} (n : Z) (a : list A) (i : Z) :
  has_len n a = true -> in_range 0 n i = false -> rd a i = Fault OutOfRange.
Proof.
  unfold has_len, in_range, rd. intros Hl Hi. apply Z.eqb_eq in Hl.
  destruct (i <? 0) eqn:E; [reflexivity|].
  apply Z.ltb_ge in E.
  destruct (nth_error a (Z.to_nat i)) eqn:N; [|reflexivity].
  assert (Hn : nth_error a (Z.to_nat i) <> None) by congruence.
  apply nth_error_Some in Hn.
  apply andb_false_iff in Hi. destruct Hi as [Hi|Hi].
  - apply Z.leb_gt in Hi. lia.
  - apply Z.ltb_ge in Hi. lia.
Qed.

Lemma rd_forallb {A : Type} (P : A -> bool) (a : list A) (i : Z) (v : A) :
  forallb P a = true -> rd a i = Ok v -> P v = true.
Proof.
  unfold rd. intros HP. destruct (i <? 0); [discriminate|].
  destruct (nth_error a (Z.to_nat i)) eqn:N; [|discriminate].
  intros H. inversion H. subst.
  apply nth_error_In in N. rewrite forallb_forall in HP. now apply HP.
Qed.

Lemma rd_ok_range {A : Type} (n : Z) (a : list A) (i : Z) (v : A) :
  has_len n a = true -> rd a i = Ok v -> in_range 0 n i = true.
Proof.
  intros Hl H. destruct (in_range 0 n i) eqn:E; [reflexivity|].
  rewrite (rd_outside n a i Hl E) in H. discriminate.
Qed.

Lemma bind_ok {A B : Type} (c : outcome A) (k : A -> outcome B) (b : B) :
  bind c k = Ok b -> exists a, c = Ok a /\ k a = Ok b.
Proof. destruct c; simpl; [eauto|discriminate]. Qed.

Lemma bind_fault {A B : Type} (c : outcome A) (k : A -> outcome B) (e : fault) :
  bind c k = Fault e -> c = Fault e \/ exists a, c = Ok a /\ k a = Fault e.
Proof. destruct c; simpl; [eauto|intros H; left; congruence]. Qed.

(** ** The exit-face resolver *)

Lemma sign_lt_gt (a : Z) : (a <? 0) = true -> (a >? 0) = true -> False.
Proof. rewrite Z.ltb_lt, Z.gtb_ltb, Z.ltb_lt. lia. Qed.

Ltac clash_on t :=
  match goal with
  | [ H1 : (t <? 0) = true, H2 : (t >? 0) = true |- _ ] =>
      exact (sign_lt_gt t H1 H2)
  end.

Ltac exits_clash :=
  let H1 := fresh "E" in
  let H2 := fresh "G" in
  intros H1 H2;
  unfold exit_ABC, exit_BAD, exit_CDA, exit_DCB in H1, H2;
  apply andb_prop in H1; destruct H1 as [_ H1];
  apply andb_prop in H2; destruct H2 as [_ H2];
  repeat match goal with
         | [ H : (_ && _) = true |- _ ] => apply andb_prop in H; destruct H
         end;
  match goal with
  | [ H : (?t <? 0) = true |- _ ] => clash_on t
  end.

Lemma ABC_BAD s : exit_ABC s = true -> exit_BAD s = true -> False.
Proof. exits_clash. Qed.
Lemma ABC_CDA s : exit_ABC s = true -> exit_CDA s = true -> False.
Proof. exits_clash. Qed.
Lemma ABC_DCB s : exit_ABC s = true -> exit_DCB s = true -> False.
Proof. exits_clash. Qed.
Lemma BAD_CDA s : exit_BAD s = true -> exit_CDA s = true -> False.
Proof. exits_clash. Qed.
Lemma BAD_DCB s : exit_BAD s = true -> exit_DCB s = true -> False.
Proof. exits_clash. Qed.
Lemma CDA_DCB s : exit_CDA s = true -> exit_DCB s = true -> False.
Proof. exits_clash. Qed.

Lemma resolve_exit_cases (s : signs) (findex adjtet : arr4 Z) :
  resolve_exit s findex adjtet =
    if exit_ABC s then (at3 findex, at3 adjtet)
    else if exit_BAD s then (at2 findex, at2 adjtet)
    else if exit_CDA s then (at1 findex, at1 adjtet)
    else if exit_DCB s then (at0 findex, at0 adjtet)
    else (0, 0).
Proof.
  unfold resolve_exit, assign_if.
  destruct (exit_ABC s) eqn:E1, (exit_BAD s) eqn:E2,
           (exit_CDA s) eqn:E3, (exit_DCB s) eqn:E4;
    try reflexivity; exfalso;
    eauto using ABC_BAD, ABC_CDA, ABC_DCB, BAD_CDA, BAD_DCB, CDA_DCB.
Qed.

Lemma resolve_exit_no_match (s : signs) (findex adjtet : arr4 Z) :
  no_exit_match s = true -> resolve_exit s findex adjtet = (0, 0).
Proof.
  unfold no_exit_match. rewrite negb_true_iff. intros H.
  repeat (apply orb_false_elim in H; destruct H as [H ?]).
  rewrite resolve_exit_cases.
  repeat match goal with [ E : _ = false |- _ ] => rewrite E; clear E end.
  reflexivity.
Qed.

(** The outputs are the initial pair or one slot of the two index arrays. *)
Lemma resolve_exit_slot (s : signs) (findex adjtet : arr4 Z) :
  let r := resolve_exit s findex adjtet in
  r = (0, 0) \/ r = (at0 findex, at0 adjtet) \/ r = (at1 findex, at1 adjtet) \/
  r = (at2 findex, at2 adjtet) \/ r = (at3 findex, at3 adjtet).
Proof.
  cbv zeta. rewrite resolve_exit_cases.
  destruct (exit_ABC s), (exit_BAD s), (exit_CDA s), (exit_DCB s); tauto.
Qed.

(** The four exit conditions exclude one another pairwise, whatever the six
    signs are: at most one of the four conditionals assigns the outputs, and
    the chain of conditionals computes the same pair as a cascade that stops
    at the first condition that holds. *)
Lemma exit_signs_exclusive (s : signs) (findex adjtet : arr4 Z) :
  exit_ABC s && exit_BAD s = false /\
  exit_ABC s && exit_CDA s = false /\
  exit_ABC s && exit_DCB s = false /\
  exit_BAD s && exit_CDA s = false /\
  exit_BAD s && exit_DCB s = false /\
  exit_CDA s && exit_DCB s = false /\
  assignments s <= 1 /\
  assignments s = (if no_exit_match s then 0 else 1) /\
  resolve_exit s findex adjtet =
    (if exit_ABC s then (at3 findex, at3 adjtet)
     else if exit_BAD s then (at2 findex, at2 adjtet)
     else if exit_CDA s then (at1 findex, at1 adjtet)
     else if exit_DCB s then (at0 findex, at0 adjtet)
     else (0, 0)).
Proof.
  pose proof (ABC_BAD s) as H1. pose proof (ABC_CDA s) as H2.
  pose proof (ABC_DCB s) as H3. pose proof (BAD_CDA s) as H4.
  pose proof (BAD_DCB s) as H5. pose proof (CDA_DCB s) as H6.
  pose proof (resolve_exit_cases s findex adjtet) as HR.
  unfold assignments, no_exit_match.
  destruct (exit_ABC s), (exit_BAD s), (exit_CDA s), (exit_DCB s);
    simpl in *; try (exfalso; auto; fail);
    repeat split; try reflexivity; try lia; exact HR.
Qed.



(** ** Reads of a well-formed mesh *)

Ltac wf_parts H :=
  unfold mesh_wf in H; cbn [forallb] in H;
  repeat rewrite andb_true_iff in H;
  repeat match goal with
         | [ H' : _ /\ _ |- _ ] => destruct H'
         end.

Ltac by_forallb :=
  match goal with
  | [ E : rd ?a ?i = Ok ?v |- ?P ?v = true ] =>
      apply (rd_forallb P a i v); [assumption | exact E]
  end.

Lemma wf_tet_findex (m : mesh2) (t : Z) :
  mesh_wf m = true -> valid_tet m t = true ->
  exists findex, tet_findex m t = Ok findex /\
    in_range 0 (facenum m) (at0 findex) = true /\
    in_range 0 (facenum m) (at1 findex) = true /\
    in_range 0 (facenum m) (at2 findex) = true /\
    in_range 0 (facenum m) (at3 findex) = true.
Proof.
  intros W V. wf_parts W. unfold valid_tet in V. unfold tet_findex.
  destruct (rd_in_range (tetnum m) (t_findex1 m) t) as [f1 E1]; try assumption.
  destruct (rd_in_range (tetnum m) (t_findex2 m) t) as [f2 E2]; try assumption.
  destruct (rd_in_range (tetnum m) (t_findex3 m) t) as [f3 E3]; try assumption.
  destruct (rd_in_range (tetnum m) (t_findex4 m) t) as [f4 E4]; try assumption.
  rewrite E1, E2, E3, E4. cbn [bind].
  eexists; split; [reflexivity|]. cbn [at0 at1 at2 at3].
  repeat split; by_forallb.
Qed.

Lemma wf_tet_adjtets (m : mesh2) (t : Z) :
  mesh_wf m = true -> valid_tet m t = true ->
  exists adjtets, tet_adjtets m t = Ok adjtets /\
    in_range (-1) (tetnum m) (at0 adjtets) = true /\
    in_range (-1) (tetnum m) (at1 adjtets) = true /\
    in_range (-1) (tetnum m) (at2 adjtets) = true /\
    in_range (-1) (tetnum m) (at3 adjtets) = true.
Proof.
  intros W V. wf_parts W. unfold valid_tet in V. unfold tet_adjtets.
  destruct (rd_in_range (tetnum m) (t_adjtet1 m) t) as [f1 E1]; try assumption.
  destruct (rd_in_range (tetnum m) (t_adjtet2 m) t) as [f2 E2]; try assumption.
  destruct (rd_in_range (tetnum m) (t_adjtet3 m) t) as [f3 E3]; try assumption.
  destruct (rd_in_range (tetnum m) (t_adjtet4 m) t) as [f4 E4]; try assumption.
  rewrite E1, E2, E3, E4. cbn [bind].
  eexists; split; [reflexivity|]. cbn [at0 at1 at2 at3].
  repeat split; by_forallb.
Qed.

Lemma wf_node_pos (m : mesh2) (n : Z) :
  mesh_wf m = true -> in_range 0 (nodenum m) n = true ->
  exists v, node_pos m n = Ok v.
Proof.
  intros W V. wf_parts W. unfold node_pos.
  destruct (rd_in_range (nodenum m) (n_x m) n) as [px E1]; try assumption.
  destruct (rd_in_range (nodenum m) (n_y m) n) as [py E2]; try assumption.
  destruct (rd_in_range (nodenum m) (n_z m) n) as [pz E3]; try assumption.
  rewrite E1, E2, E3. cbn [bind]. eauto.
Qed.

Lemma wf_tet_nodes (m : mesh2) (t : Z) :
  mesh_wf m = true -> valid_tet m t = true ->
  exists nodes, tet_nodes m t = Ok nodes.
Proof.
  intros W V. pose proof W as W'. wf_parts W. unfold valid_tet in V. unfold tet_nodes.
  destruct (rd_in_range (tetnum m) (t_nindex1 m) t) as [i1 E1]; try assumption.
  destruct (rd_in_range (tetnum m) (t_nindex2 m) t) as [i2 E2]; try assumption.
  destruct (rd_in_range (tetnum m) (t_nindex3 m) t) as [i3 E3]; try assumption.
  destruct (rd_in_range (tetnum m) (t_nindex4 m) t) as [i4 E4]; try assumption.
  destruct (wf_node_pos m i1 W') as [v1 N1]; [by_forallb|].
  destruct (wf_node_pos m i2 W') as [v2 N2]; [by_forallb|].
  destruct (wf_node_pos m i3 W') as [v3 N3]; [by_forallb|].
  destruct (wf_node_pos m i4 W') as [v4 N4]; [by_forallb|].
  rewrite E1. cbn [bind]. rewrite N1. cbn [bind].
  rewrite E2. cbn [bind]. rewrite N2. cbn [bind].
  rewrite E3. cbn [bind]. rewrite N3. cbn [bind].
  rewrite E4. cbn [bind]. rewrite N4. cbn [bind]. eauto.
Qed.

Lemma wf_face_flags (m : mesh2) (f : Z) :
  mesh_wf m = true -> in_range 0 (facenum m) f = true ->
  exists c wl, rd (face_is_constrained m) f = Ok c /\ rd (face_is_wall m) f = Ok wl.
Proof.
  intros W V. wf_parts W.
  destruct (rd_in_range (facenum m) (face_is_constrained m) f) as [c E1]; try assumption.
  destruct (rd_in_range (facenum m) (face_is_wall m) f) as [wl E2]; try assumption.
  eauto.
Qed.

Lemma in_range_nonempty (lo n v : Z) : 0 <= lo -> in_range lo n v = true -> in_range 0 n 0 = true.
Proof.
  unfold in_range. intros Hlo H. apply andb_prop in H. destruct H as [H1 H2].
  apply Z.leb_le in H1. apply Z.ltb_lt in H2.
  apply andb_true_intro. split; [apply Z.leb_le|apply Z.ltb_lt]; lia.
Qed.

Lemma in_range_weaken (n v : Z) : in_range 0 n 0 = true -> in_range (-1) n 0 = true.
Proof.
  unfold in_range. intros H. apply andb_prop in H. destruct H as [_ H].
  rewrite H. reflexivity.
Qed.

Lemma neighbour_valid (m : mesh2) (nt nf : Z) :
  in_range (-1) (tetnum m) nt = true -> out_of_mesh nt nf = false ->
  valid_tet m nt = true.
Proof.
  unfold in_range, out_of_mesh, valid_tet. intros H O.
  apply andb_prop in H. destruct H as [H1 H2]. apply Z.leb_le in H1.
  apply orb_false_elim in O. destruct O as [O _]. apply Z.eqb_neq in O.
  unfold in_range. rewrite H2, andb_true_r. apply Z.leb_le. lia.
Qed.

(** The exit resolved in a valid tetrahedron of a well-formed mesh is a
    readable face and a neighbour in [-1, tetnum). *)
Lemma wf_exit_of (m : mesh2) (rayo rayd : float4) (t lface : Z) :
  mesh_wf m = true -> valid_tet m t = true ->
  exists findex adjtets nodes nf nt,
    tet_findex m t = Ok findex /\ tet_adjtets m t = Ok adjtets /\
    tet_nodes m t = Ok nodes /\
    GetExitTet rayo rayd nodes findex adjtets lface = (nf, nt) /\
    in_range 0 (facenum m) nf = true /\ in_range (-1) (tetnum m) nt = true.
Proof.
  intros W V.
  destruct (wf_tet_findex m t W V) as (findex & Ef & F0 & F1 & F2 & F3).
  destruct (wf_tet_adjtets m t W V) as (adjtets & Ea & A0 & A1 & A2 & A3).
  destruct (wf_tet_nodes m t W V) as (nodes & En).
  assert (Z0 : in_range 0 (facenum m) 0 = true)
    by (eapply in_range_nonempty; [|exact F0]; lia).
  assert (T0 : in_range (-1) (tetnum m) 0 = true).
  { apply in_range_weaken; [exact 0|]. eapply in_range_nonempty; [|exact V]. lia. }
  unfold GetExitTet.
  pose proof (resolve_exit_slot (edge_signs rayo rayd nodes) findex adjtets) as R.
  cbv zeta in R.
  destruct (resolve_exit (edge_signs rayo rayd nodes) findex adjtets)
    as [nf nt] eqn:E.
  exists findex, adjtets, nodes, nf, nt.
  repeat split; try assumption;
    destruct R as [R|[R|[R|[R|R]]]]; inversion R; subst; assumption.
Qed.

(** ** One pass of the loop body *)

Lemma walk_body_hit m rayo rayd target s :
  hitfound s = true -> walk_body m rayo rayd target s = Ok s.
Proof. intros H. unfold walk_body. now rewrite H. Qed.

Lemma walk_body_eq m rayo rayd target s findex adjtets nodes nf nt c wl :
  hitfound s = false ->
  tet_findex m (current_tet s) = Ok findex ->
  tet_adjtets m (current_tet s) = Ok adjtets ->
  tet_nodes m (current_tet s) = Ok nodes ->
  GetExitTet rayo rayd nodes findex adjtets (lastface s) = (nf, nt) ->
  rd (face_is_constrained m) nf = Ok c ->
  rd (face_is_wall m) nf = Ok wl ->
  walk_body m rayo rayd target s = Ok (step_result target s nodes nf nt c wl).
Proof.
  intros H Ef Ea En Eg Ec Ew. unfold walk_body.
  rewrite H, Ef, Ea, En. cbn [bind]. rewrite Eg.
  unfold stop_tests. rewrite Ec. cbn [bind]. rewrite Ew. cbn [bind].
  unfold step_result, inside_target, out_of_mesh.
  destruct (hit s) as [p t f dp w0 c0 k0].
  destruct target as [e|];
    [destruct (IsPointInTetrahedron (at0 nodes) (at1 nodes) (at2 nodes) (at3 nodes) e)|];
    destruct c, wl, ((nt =? -1) || (nf =? -1)), w0, c0; reflexivity.
Qed.

Lemma walk_body_inv m rayo rayd target s s' :
  hitfound s = false ->
  walk_body m rayo rayd target s = Ok s' ->
  exists findex adjtets nodes nf nt c wl,
    tet_findex m (current_tet s) = Ok findex /\
    tet_adjtets m (current_tet s) = Ok adjtets /\
    tet_nodes m (current_tet s) = Ok nodes /\
    GetExitTet rayo rayd nodes findex adjtets (lastface s) = (nf, nt) /\
    rd (face_is_constrained m) nf = Ok c /\
    rd (face_is_wall m) nf = Ok wl /\
    s' = step_result target s nodes nf nt c wl.
Proof.
  intros H B. pose proof B as B'. unfold walk_body in B. rewrite H in B.
  apply bind_ok in B. destruct B as (findex & Ef & B).
  apply bind_ok in B. destruct B as (adjtets & Ea & B).
  apply bind_ok in B. destruct B as (nodes & En & B).
  destruct (GetExitTet rayo rayd nodes findex adjtets (lastface s)) as [nf nt] eqn:Eg.
  apply bind_ok in B. destruct B as (dh & St & _).
  unfold stop_tests in St.
  apply bind_ok in St. destruct St as (c & Ec & St).
  apply bind_ok in St. destruct St as (wl & Ew & _).
  exists findex, adjtets, nodes, nf, nt, c, wl.
  repeat split; try assumption.
  rewrite (walk_body_eq m rayo rayd target s findex adjtets nodes nf nt c wl) in B';
    try assumption.
  now inversion B'.
Qed.

Lemma node_pos_fault m n e : node_pos m n = Fault e -> e = OutOfRange.
Proof.
  unfold node_pos. intros H.
  repeat match goal with
         | [ F : bind ?c _ = Fault _ |- _ ] =>
             apply bind_fault in F; destruct F as [F|(? & _ & F)];
             [exact (rd_fault _ _ _ F)|]
         end.
  discriminate.
Qed.

Ltac fault_steps :=
  repeat match goal with
         | [ F : bind (rd _ _) _ = Fault _ |- _ ] =>
             apply bind_fault in F; destruct F as [F|(? & _ & F)];
             [exact (rd_fault _ _ _ F)|]
         | [ F : bind (node_pos _ _) _ = Fault _ |- _ ] =>
             apply bind_fault in F; destruct F as [F|(? & _ & F)];
             [exact (node_pos_fault _ _ _ F)|]
         end.

Lemma tet_nodes_fault m t e : tet_nodes m t = Fault e -> e = OutOfRange.
Proof. unfold tet_nodes. intros H. fault_steps. discriminate. Qed.

Lemma tet_findex_fault m t e : tet_findex m t = Fault e -> e = OutOfRange.
Proof. unfold tet_findex. intros H. fault_steps. discriminate. Qed.

Lemma tet_adjtets_fault m t e : tet_adjtets m t = Fault e -> e = OutOfRange.
Proof. unfold tet_adjtets. intros H. fault_steps. discriminate. Qed.

Lemma walk_body_fault m rayo rayd target s e :
  walk_body m rayo rayd target s = Fault e -> e = OutOfRange.
Proof.
  unfold walk_body. destruct (hitfound s); [discriminate|]. intros B.
  apply bind_fault in B. destruct B as [B|(findex & _ & B)];
    [exact (tet_findex_fault _ _ _ B)|].
  apply bind_fault in B. destruct B as [B|(adjtets & _ & B)];
    [exact (tet_adjtets_fault _ _ _ B)|].
  apply bind_fault in B. destruct B as [B|(nodes & _ & B)];
    [exact (tet_nodes_fault _ _ _ B)|].
  destruct (GetExitTet rayo rayd nodes findex adjtets (lastface s)) as [nf nt].
  apply bind_fault in B. destruct B as [B|(dh & _ & B)]; [|discriminate].
  unfold stop_tests in B. fault_steps. discriminate.
Qed.

(** In a well-formed mesh a pass of the body succeeds and leaves the walk
    stopped or in a tetrahedron of the mesh. *)
Lemma walk_body_wf m rayo rayd target s :
  mesh_wf m = true -> can_step m s ->
  exists s', walk_body m rayo rayd target s = Ok s' /\ can_step m s'.
Proof.
  intros W K. destruct (hitfound s) eqn:H.
  - exists s. split; [now apply walk_body_hit|exact K].
  - destruct K as [K|K]; [congruence|].
    destruct (wf_exit_of m rayo rayd (current_tet s) (lastface s) W K)
      as (findex & adjtets & nodes & nf & nt & Ef & Ea & En & Eg & Rf & Rt).
    destruct (wf_face_flags m nf W Rf) as (c & wl & Ec & Ew).
    exists (step_result target s nodes nf nt c wl). split.
    + now apply walk_body_eq with (findex := findex) (adjtets := adjtets).
    + unfold can_step, step_result. cbn [hitfound current_tet].
      destruct (out_of_mesh nt nf) eqn:O.
      * left. now rewrite !orb_true_r.
      * right. now apply neighbour_valid with (nf := nf).
Qed.

Lemma walk_body_depth m rayo rayd target s s' :
  walk_body m rayo rayd target s = Ok s' -> depth (hit s') = depth (hit s).
Proof.
  intros B. destruct (hitfound s) eqn:H.
  - rewrite walk_body_hit in B by assumption. now inversion B.
  - apply walk_body_inv in B; [|assumption].
    destruct B as (? & ? & ? & ? & ? & ? & ? & _ & _ & _ & _ & _ & _ & ->).
    reflexivity.
Qed.

(** ** The loop *)

Lemma walk_loop_S fuel m rayo rayd target s :
  walk_loop (S fuel) m rayo rayd target s =
    if depth (hit s) <? 80 then
      s' <- walk_body m rayo rayd target s ;;
      walk_loop fuel m rayo rayd target (incr_depth s')
    else Ok s.
Proof. reflexivity. Qed.

Lemma walk_loop_done fuel m rayo rayd target s :
  80 <= depth (hit s) -> walk_loop fuel m rayo rayd target s = Ok s.
Proof.
  intros H. destruct fuel; cbn [walk_loop];
    destruct (depth (hit s) <? 80) eqn:E; try reflexivity;
    apply Z.ltb_lt in E; lia.
Qed.

(** Invariant rule: a property kept by a pass of the body followed by
    the increment of [d.depth] holds when the loop is left, and the loop is
    left by its guard. *)
Lemma walk_loop_inv (P : walk -> Prop) m rayo rayd target :
  (forall s s', P s -> depth (hit s) < 80 ->
                walk_body m rayo rayd target s = Ok s' -> P (incr_depth s')) ->
  forall fuel s s',
    P s -> walk_loop fuel m rayo rayd target s = Ok s' ->
    P s' /\ 80 <= depth (hit s').
Proof.
  intros Step. induction fuel as [|fuel IH]; intros s s' HP L.
  - cbn [walk_loop] in L. destruct (depth (hit s) <? 80) eqn:E; [discriminate|].
    inversion L; subst. apply Z.ltb_ge in E. auto.
  - rewrite walk_loop_S in L. destruct (depth (hit s) <? 80) eqn:E.
    + apply bind_ok in L. destruct L as (s1 & B & L).
      apply Z.ltb_lt in E. eapply IH; [|exact L]. eapply Step; eassumption.
    + inversion L; subst. apply Z.ltb_ge in E. auto.
Qed.

(** With a budget of at least [80 - d.depth] passes the loop does not stop
    for lack of fuel. *)
Lemma walk_loop_total (P : walk -> Prop) m rayo rayd target :
  (forall s, P s -> exists s', walk_body m rayo rayd target s = Ok s' /\
                               P (incr_depth s')) ->
  forall fuel s,
    P s -> (Z.to_nat (80 - depth (hit s)) <= fuel)%nat ->
    exists s', walk_loop fuel m rayo rayd target s = Ok s'.
Proof.
  intros Step. induction fuel as [|fuel IH]; intros s HP F.
  - exists s. apply walk_loop_done. lia.
  - rewrite walk_loop_S. destruct (depth (hit s) <? 80) eqn:E; [|eauto].
    apply Z.ltb_lt in E. destruct (Step s HP) as (s1 & B & HP1).
    rewrite B. cbn [bind]. apply IH; [exact HP1|].
    apply walk_body_depth in B.
    unfold incr_depth. cbn [hit set_depth depth]. lia.
Qed.

Lemma walk_loop_fault m rayo rayd target :
  forall fuel s e,
    (Z.to_nat (80 - depth (hit s)) <= fuel)%nat ->
    walk_loop fuel m rayo rayd target s = Fault e -> e = OutOfRange.
Proof.
  induction fuel as [|fuel IH]; intros s e F L.
  - rewrite walk_loop_done in L by lia. discriminate.
  - rewrite walk_loop_S in L. destruct (depth (hit s) <? 80) eqn:E; [|discriminate].
    apply Z.ltb_lt in E.
    apply bind_fault in L. destruct L as [L|(s1 & B & L)].
    + exact (walk_body_fault _ _ _ _ _ _ L).
    + apply IH in L; [exact L|].
      apply walk_body_depth in B.
      unfold incr_depth. cbn [hit set_depth depth]. lia.
Qed.

(** The loop leaves [d.depth] at 80. *)
Lemma walk_loop_depth m rayo rayd target fuel s s' :
  depth (hit s) <= 80 ->
  walk_loop fuel m rayo rayd target s = Ok s' -> depth (hit s') = 80.
Proof.
  intros D L.
  destruct (walk_loop_inv (fun s => depth (hit s) <= 80) m rayo rayd target)
    with (fuel := fuel) (s := s) (s' := s') as [H1 H2]; try assumption; [|lia].
  intros s0 s1 P0 Lt B. apply walk_body_depth in B.
  unfold incr_depth. cbn [hit set_depth depth]. lia.
Qed.

(** Once a hit is found the remaining passes only count [d.depth] up to 80. *)
Lemma walk_loop_hit m rayo rayd target :
  forall fuel s,
    hitfound s = true -> depth (hit s) <= 80 ->
    (Z.to_nat (80 - depth (hit s)) <= fuel)%nat ->
    exists s', walk_loop fuel m rayo rayd target s = Ok s' /\
               hitfound s' = true /\ hit s' = set_depth (hit s) 80.
Proof.
  induction fuel as [|fuel IH]; intros s H D F.
  - exists s. split; [apply walk_loop_done; lia|]. split; [exact H|].
    assert (E : depth (hit s) = 80) by lia.
    destruct (hit s); cbn in *; now subst.
  - rewrite walk_loop_S. destruct (depth (hit s) <? 80) eqn:E.
    + apply Z.ltb_lt in E. rewrite walk_body_hit by assumption. cbn [bind].
      destruct (IH (incr_depth s)) as (s' & L & H' & D').
      * exact H.
      * unfold incr_depth. cbn [hit set_depth depth]. lia.
      * unfold incr_depth. cbn [hit set_depth depth]. lia.
      * exists s'. split; [exact L|]. split; [exact H'|]. rewrite D'.
        reflexivity.
    + apply Z.ltb_ge in E. exists s. split; [reflexivity|]. split; [exact H|].
      assert (E' : depth (hit s) = 80) by lia.
      destruct (hit s); cbn in *; now subst.
Qed.

(** ** The traversals as a whole *)

Lemma exit_assigned_step m rayo rayd target s s' :
  exit_assigned s -> depth (hit s) < 80 ->
  walk_body m rayo rayd target s = Ok s' -> exit_assigned (incr_depth s').
Proof.
  intros J _ B. right. unfold incr_depth. cbn [nextface].
  destruct (hitfound s) eqn:H.
  - rewrite walk_body_hit in B by assumption. inversion B; subst.
    destruct J as [[_ J]|J]; [congruence|exact J].
  - apply walk_body_inv in B; [|assumption].
    destruct B as (? & ? & ? & ? & ? & ? & ? & _ & _ & _ & _ & _ & _ & ->).
    cbn. discriminate.
Qed.

Lemma walk_loop_exit_assigned m rayo rayd target start d s :
  walk_loop 80 m rayo rayd target (walk_start start d) = Ok s ->
  nextface s <> None /\ depth (hit s) = 80.
Proof.
  intros L. split.
  - destruct (walk_loop_inv exit_assigned m rayo rayd target
                (exit_assigned_step m rayo rayd target)
                80%nat (walk_start start d) s) as [[[D _]|J] G];
      [left; split; reflexivity|exact L|lia|exact J].
  - eapply walk_loop_depth; [|exact L]. cbn. lia.
Qed.

Lemma walk_finish_depth s d' : walk_finish s = Ok d' -> depth d' = depth (hit s).
Proof.
  unfold walk_finish. destruct (hitfound s).
  - intros H. now inversion H.
  - destruct (nextface s); [|discriminate]. intros H. now inversion H.
Qed.

Lemma traverse_depth m rayo rayd target start d d' :
  traverse m rayo rayd target start d = Ok d' -> depth d' = 80.
Proof.
  unfold traverse. intros T. apply bind_ok in T. destruct T as (s & L & Fi).
  apply walk_loop_exit_assigned in L. destruct L as [_ D].
  apply walk_finish_depth in Fi. congruence.
Qed.

Lemma traverse_fault m rayo rayd target start d e :
  traverse m rayo rayd target start d = Fault e -> e = OutOfRange.
Proof.
  unfold traverse. intros T. apply bind_fault in T. destruct T as [L|(s & L & Fi)].
  - eapply walk_loop_fault; [|exact L]. cbn. lia.
  - apply walk_loop_exit_assigned in L. destruct L as [N _].
    unfold walk_finish in Fi. destruct (hitfound s); [discriminate|].
    destruct (nextface s); [discriminate|congruence].
Qed.

Lemma traverse_total m rayo rayd target start d :
  mesh_wf m = true -> valid_tet m start = true ->
  exists d', traverse m rayo rayd target start d = Ok d'.
Proof.
  intros W V. unfold traverse.
  destruct (walk_loop_total (can_step m) m rayo rayd target) with
    (fuel := 80%nat) (s := walk_start start d) as (s & L).
  - intros s0 K. destruct (walk_body_wf m rayo rayd target s0 W K) as (s1 & B & K1).
    exists s1. split; [exact B|exact K1].
  - right. exact V.
  - cbn. lia.
  - rewrite L. cbn [bind]. apply walk_loop_exit_assigned in L. destruct L as [N _].
    unfold walk_finish. destruct (hitfound s); [eauto|].
    destruct (nextface s); [eauto|congruence].
Qed.

Lemma flags_follow_hit_step m rayo rayd s s' :
  flags_follow_hit s -> depth (hit s) < 80 ->
  walk_body m rayo rayd None s = Ok s' -> flags_follow_hit (incr_depth s').
Proof.
  intros [Dk Hf] _ B. destruct (hitfound s) eqn:H.
  - rewrite walk_body_hit in B by assumption. inversion B; subst.
    unfold flags_follow_hit, incr_depth. cbn. rewrite H. auto.
  - apply walk_body_inv in B; [|assumption].
    destruct B as (? & ? & nodes & nf & nt & c & wl & _ & _ & _ & _ & _ & _ & ->).
    symmetry in Hf. apply orb_false_elim in Hf. destruct Hf as [Hw Hc].
    unfold flags_follow_hit, incr_depth, step_result. cbn.
    rewrite Dk, Hw, Hc. split; [reflexivity|].
    destruct c, wl, (out_of_mesh nt nf); reflexivity.
Qed.

(** ** Properties of [traverse_ray] *)

(** C10. Whenever [traverse_ray] returns, the depth field of the result
    is 80: the loop runs until its guard [d.depth < 80] fails, and a pass
    that starts with [hitfound] set leaves the state as it is. The only
    other outcome is a read outside an array, which needs an ill-formed
    mesh or a start index outside the mesh. *)
Theorem traverse_ray_depth_is_80 (m : mesh2) (rayo rayd : float4) (start : Z)
    (d : rayhit) (cur lf : Z) (nt nf : option Z) (d0 : rayhit) :
  match traverse_ray m rayo rayd start d with
  | Ok d' => depth d' = 80
  | Fault e => e = OutOfRange /\ mesh_wf m && valid_tet m start = false
  end /\
  walk_body m rayo rayd None (mk_walk cur nt nf lf true d0) =
    Ok (mk_walk cur nt nf lf true d0).
Proof.
  split; [|reflexivity].
  unfold traverse_ray.
  destruct (traverse m rayo rayd None start d) as [d'|e] eqn:T.
  - eapply traverse_depth. exact T.
  - split; [eapply traverse_fault; exact T|].
    destruct (mesh_wf m) eqn:W; [|reflexivity].
    destruct (valid_tet m start) eqn:V; [|reflexivity].
    destruct (traverse_total m rayo rayd None start d W V) as (d' & T').
    congruence.
Qed.

(** Whatever the flags of the faces are: for a well-formed mesh, a start index inside
    the mesh and a result whose flags are clear on entry, [traverse_ray]
    returns after the 80 passes of its loop with at least one flag set;
    [dark] is set exactly when neither [wall] nor [constrained] is, while
    [wall] and [constrained] may both be set. *)
Lemma traverse_ray_flags (m : mesh2) (rayo rayd : float4) (start : Z) (d : rayhit) :
  mesh_wf m = true -> valid_tet m start = true ->
  wall d = false -> constrained d = false -> dark d = false ->
  exists d', traverse_ray m rayo rayd start d = Ok d' /\
             depth d' = 80 /\
             1 <= flags_set d' <= 2 /\
             dark d' = negb (wall d' || constrained d').
Proof.
  intros W V Hw Hc Hd.
  destruct (traverse_total m rayo rayd None start d W V) as (d' & T).
  exists d'. split; [exact T|]. split; [eapply traverse_depth; exact T|].
  unfold traverse in T. apply bind_ok in T. destruct T as (s & L & Fi).
  assert (I : flags_follow_hit s).
  { destruct (walk_loop_inv flags_follow_hit m rayo rayd None
                (flags_follow_hit_step m rayo rayd)
                80%nat (walk_start start d) s) as [I _]; [|exact L|exact I].
    unfold flags_follow_hit, walk_start. cbn. now rewrite Hw, Hc, Hd. }
  destruct I as [Dk Hf]. unfold walk_finish in Fi. unfold flags_set.
  destruct (hitfound s) eqn:H.
  - inversion Fi; subst. rewrite Dk, <- Hf.
    split; [|reflexivity].
    destruct (wall (hit s)), (constrained (hit s)); cbn in *; try lia; discriminate.
  - destruct (nextface s); [|discriminate]. inversion Fi; subst. cbn.
    symmetry in Hf. apply orb_false_elim in Hf. destruct Hf as [-> ->].
    cbn. split; [lia|reflexivity].
Qed.

Lemma traverse_ray_flags_witness :
  exists d', traverse_ray unit_tet origin_0_1 (vec 1 1 1) 0 (rayhit_init (vec 0 0 0)) = Ok d' /\
             depth d' = 80 /\
             1 <= flags_set d' <= 2 /\
             dark d' = negb (wall d' || constrained d').
Proof.
  apply (traverse_ray_flags unit_tet origin_0_1 (vec 1 1 1) 0 (rayhit_init (vec 0 0 0)));
    reflexivity.
Defined.

(** C5 does not hold as stated: the exit face of [unit_tet_both] is flagged
    constrained and wall; the exit face of [unit_tet_constrained] is
    constrained, not a wall, and has no tetrahedron behind it; the exit face
    of [two_tets_both] has a tetrahedron behind it and both flags. In all
    three the result carries two flags. *)
Lemma traverse_ray_two_flags :
  mesh_wf unit_tet_both = true /\ valid_tet unit_tet_both 0 = true /\
  ~ (exists d', traverse_ray unit_tet_both origin_0_1 (vec 1 1 1) 0
                  (rayhit_init (vec 0 0 0)) = Ok d' /\
                flags_set d' = 1) /\
  mesh_wf unit_tet_constrained = true /\
  exclusive_faces unit_tet_constrained = true /\
  ~ (exists d', traverse_ray unit_tet_constrained origin_0_1 (vec 1 1 1) 0
                  (rayhit_init (vec 0 0 0)) = Ok d' /\
                flags_set d' = 1) /\
  mesh_wf two_tets_both = true /\
  constrained_have_neighbours two_tets_both = true /\
  ~ (exists d', traverse_ray two_tets_both (vec 1 1 1) (vec 1 1 1) 1
                  (rayhit_init (vec 0 0 0)) = Ok d' /\
                flags_set d' = 1).
Proof.
  split; [reflexivity|]. split; [reflexivity|].
  split; [|split; [reflexivity|split; [reflexivity|
    split; [|split; [reflexivity|split; [reflexivity|]]]]]];
    intros (d' & T & F); vm_compute in T; inversion T; subst; discriminate F.
Qed.

Lemma tet_indices_complete (m : mesh2) (t : Z) :
  valid_tet m t = true -> In t (tet_indices m).
Proof.
  unfold valid_tet, in_range, tet_indices. intros V.
  apply andb_prop in V. destruct V as [V0 V1].
  apply Z.leb_le in V0. apply Z.ltb_lt in V1.
  apply in_map_iff. exists (Z.to_nat t). split; [lia|].
  apply in_seq. lia.
Qed.

Lemma combine_nth {A B : Type} :
  forall (l1 : list A) (l2 : list B) (i : nat) (a : A) (b : B),
    nth_error l1 i = Some a -> nth_error l2 i = Some b -> In (a, b) (combine l1 l2).
Proof.
  induction l1 as [|x r IH]; intros l2 i a b H1 H2; destruct i; cbn in H1;
    try discriminate; destruct l2 as [|y r2]; cbn in H2; try discriminate.
  - inversion H1; inversion H2; subst. now left.
  - right. eapply IH; eassumption.
Qed.

Lemma rd_nth {A : Type} (l : list A) (i : Z) (v : A) :
  rd l i = Ok v -> nth_error l (Z.to_nat i) = Some v.
Proof.
  unfold rd. destruct (i <? 0); [discriminate|].
  destruct (nth_error l (Z.to_nat i)); [|discriminate]. intros H. now inversion H.
Qed.

Lemma exclusive_faces_wall (m : mesh2) (f : Z) (wl : bool) :
  exclusive_faces m = true ->
  rd (face_is_constrained m) f = Ok true -> rd (face_is_wall m) f = Ok wl ->
  wl = false.
Proof.
  unfold exclusive_faces. intros E Rc Rw. rewrite forallb_forall in E.
  specialize (E (true, wl) (combine_nth _ _ _ _ _ (rd_nth _ _ _ Rc) (rd_nth _ _ _ Rw))).
  cbn in E. now apply negb_true_iff in E.
Qed.

Lemma slot_regular_neighbour (m : mesh2) (fl al : list Z) (t a f : Z) :
  slot_regular m fl al t = true ->
  rd al t = Ok a -> rd fl t = Ok f ->
  rd (face_is_constrained m) f = Ok true -> a <> -1.
Proof.
  unfold slot_regular. intros S Ra Rf Rc E. rewrite Ra, Rf, Rc in S.
  subst a. discriminate S.
Qed.

(** In a mesh with regular flags the tetrahedron behind a constrained exit
    face is never the sentinel -1. *)
Lemma regular_exit_neighbour (m : mesh2) (t : Z) (s : signs) (findex adjtets : arr4 Z)
    (nf nt : Z) :
  constrained_have_neighbours m = true -> valid_tet m t = true ->
  tet_findex m t = Ok findex -> tet_adjtets m t = Ok adjtets ->
  resolve_exit s findex adjtets = (nf, nt) ->
  rd (face_is_constrained m) nf = Ok true -> nt <> -1.
Proof.
  intros C V Ef Ea R Rc.
  unfold constrained_have_neighbours in C. rewrite forallb_forall in C.
  specialize (C t (tet_indices_complete m t V)).
  apply andb_prop in C. destruct C as [C S4].
  apply andb_prop in C. destruct C as [C S3].
  apply andb_prop in C. destruct C as [S1 S2].
  unfold tet_findex in Ef.
  apply bind_ok in Ef. destruct Ef as (f1 & F1 & Ef).
  apply bind_ok in Ef. destruct Ef as (f2 & F2 & Ef).
  apply bind_ok in Ef. destruct Ef as (f3 & F3 & Ef).
  apply bind_ok in Ef. destruct Ef as (f4 & F4 & Ef). inversion Ef; subst findex.
  unfold tet_adjtets in Ea.
  apply bind_ok in Ea. destruct Ea as (a1 & A1 & Ea).
  apply bind_ok in Ea. destruct Ea as (a2 & A2 & Ea).
  apply bind_ok in Ea. destruct Ea as (a3 & A3 & Ea).
  apply bind_ok in Ea. destruct Ea as (a4 & A4 & Ea). inversion Ea; subst adjtets.
  pose proof (resolve_exit_slot s (Arr4 f1 f2 f3 f4) (Arr4 a1 a2 a3 a4)) as Sl.
  cbv zeta in Sl. rewrite R in Sl. cbn [at0 at1 at2 at3] in Sl.
  destruct Sl as [Sl|[Sl|[Sl|[Sl|Sl]]]]; inversion Sl; subst.
  - discriminate.
  - eapply slot_regular_neighbour; [exact S1| | |]; eassumption.
  - eapply slot_regular_neighbour; [exact S2| | |]; eassumption.
  - eapply slot_regular_neighbour; [exact S3| | |]; eassumption.
  - eapply slot_regular_neighbour; [exact S4| | |]; eassumption.
Qed.

(** C5, as the code has it. For a well-formed mesh with regular face flags
    (no face flagged both constrained and wall, no constrained face in a
    slot without neighbour), every ray, a start index inside the mesh and a
    result whose flags are clear on entry, [traverse_ray] returns after the
    80 passes of its loop with exactly one of the three flags [wall],
    [constrained], [dark] set. *)
Theorem traverse_ray_exactly_one_flag (m : mesh2) (rayo rayd : float4) (start : Z)
    (d : rayhit) :
  mesh_wf m = true -> regular_flags m = true -> valid_tet m start = true ->
  wall d = false -> constrained d = false -> dark d = false ->
  exists d', traverse_ray m rayo rayd start d = Ok d' /\
             depth d' = 80 /\
             flags_set d' = 1.
Proof.
  intros W Rg V Hw Hc Hd.
  unfold regular_flags in Rg. apply andb_prop in Rg. destruct Rg as [Ex Cn].
  destruct (traverse_total m rayo rayd None start d W V) as (d' & T).
  exists d'. split; [exact T|]. split; [eapply traverse_depth; exact T|].
  unfold traverse in T. apply bind_ok in T. destruct T as (s & L & Fi).
  set (P := fun s : walk =>
        dark (hit s) = false /\
        if hitfound s
        then flags_set (hit s) = 1
        else wall (hit s) = false /\ constrained (hit s) = false /\
             valid_tet m (current_tet s) = true).
  assert (I : P s).
  { apply (walk_loop_inv P m rayo rayd None) with (fuel := 80%nat)
      (s := walk_start start d); [|unfold P; cbn; auto|exact L].
    intros s0 s1 [Dk P0] _ B. unfold P. destruct (hitfound s0) eqn:H.
    - rewrite walk_body_hit in B by assumption. inversion B; subst.
      cbn. rewrite H. auto.
    - destruct P0 as (W0 & C0 & V0).
      apply walk_body_inv in B; [|exact H].
      destruct B as (findex & adjtets & nodes & nf & nt & c & wl
                     & Ef & Ea & En & Eg & Ec & Ew & ->).
      destruct (wf_exit_of m rayo rayd (current_tet s0) (lastface s0) W V0)
        as (fi & ad & no & nf' & nt' & Ef' & Ea' & En' & Eg' & Rf & Rt).
      assert (fi = findex) by congruence. assert (ad = adjtets) by congruence.
      assert (no = nodes) by congruence. subst.
      assert (nf' = nf /\ nt' = nt) as [-> ->] by (split; congruence).
      assert (Nf : (nf =? -1) = false).
      { apply Z.eqb_neq. unfold in_range in Rf. apply andb_prop in Rf.
        destruct Rf as [Rf _]. apply Z.leb_le in Rf. lia. }
      unfold step_result, incr_depth, flags_set, out_of_mesh. cbn.
      rewrite W0, C0, Dk, Nf. cbn. rewrite orb_false_r.
      split; [reflexivity|].
      destruct c.
      + assert (wl = false) by (eapply exclusive_faces_wall; eassumption). subst wl.
        assert (Nt : nt <> -1)
          by (unfold GetExitTet in Eg; eapply regular_exit_neighbour; eassumption).
        apply Z.eqb_neq in Nt. rewrite Nt. reflexivity.
      + cbn. destruct (wl || (nt =? -1)) eqn:S; cbn; [reflexivity|].
        repeat split. apply neighbour_valid with (nf := nf); [exact Rt|].
        unfold out_of_mesh. apply orb_false_elim in S. destruct S as [_ ->].
        now rewrite Nf. }
  destruct I as [Dk I]. unfold walk_finish in Fi. destruct (hitfound s).
  - inversion Fi; subst. exact I.
  - destruct I as (W0 & C0 & _).
    destruct (nextface s); [|discriminate]. inversion Fi; subst.
    unfold flags_set. cbn. now rewrite W0, C0.
Qed.

Lemma traverse_ray_exactly_one_flag_witness :
  exists d', traverse_ray two_tets (vec 1 1 1) (vec 1 1 1) 1
               (rayhit_init (vec 0 0 0)) = Ok d' /\
             depth d' = 80 /\
             flags_set d' = 1.
Proof.
  apply (traverse_ray_exactly_one_flag two_tets (vec 1 1 1) (vec 1 1 1) 1
           (rayhit_init (vec 0 0 0))); reflexivity.
Defined.

(** C6, as the code has it. [traverse_ray] has no test of its start index.
    In a well-formed mesh it returns a result when the index is inside
    [0, tetnum), and reads [t_findex1] outside the array in its first pass
    when it is not. *)
Theorem traverse_ray_start_index (m : mesh2) (rayo rayd : float4) (start : Z)
    (d : rayhit) :
  mesh_wf m = true ->
  if valid_tet m start
  then exists d', traverse_ray m rayo rayd start d = Ok d'
  else traverse_ray m rayo rayd start d = Fault OutOfRange.
Proof.
  intros W. destruct (valid_tet m start) eqn:V.
  - exact (traverse_total m rayo rayd None start d W V).
  - unfold traverse_ray, traverse. change 80%nat with (S 79).
    rewrite walk_loop_S. unfold walk_body, tet_findex, walk_start.
    cbn [hit set_depth depth hitfound current_tet].
    change (0 <? 80) with true. cbv iota.
    wf_parts W.
    rewrite (rd_outside (tetnum m) (t_findex1 m) start) by assumption.
    reflexivity.
Qed.

Lemma traverse_ray_start_index_witness :
  traverse_ray unit_tet origin_0_1 (vec 1 1 1) 1 (rayhit_init (vec 0 0 0))
    = Fault OutOfRange.
Proof.
  exact (traverse_ray_start_index unit_tet origin_0_1 (vec 1 1 1) 1
           (rayhit_init (vec 0 0 0)) eq_refl).
Defined.

(** C6 does not hold as stated: with start index 1 in a mesh of one
    tetrahedron the traversal reads outside its arrays and reports nothing. *)
Lemma traverse_ray_bad_start :
  valid_tet unit_tet 1 = false /\
  ~ (exists d', traverse_ray unit_tet origin_0_1 (vec 1 1 1) 1
                  (rayhit_init (vec 0 0 0)) = Ok d' /\ dark d' = true).
Proof.
  split; [reflexivity|]. intros (d' & T & _). vm_compute in T. discriminate T.
Qed.

(** C9. When none of the four conditions matches, [GetExitTet] leaves its
    outputs at the initial values face 0 and tetrahedron 0. In a
    well-formed mesh these are indices of a face and of a tetrahedron, the
    same pair a match of the slot of face 0 and neighbour 0 produces. The
    out-of-mesh test of the loop body, true only when one of the two is
    -1, is false on them: the pass sets
    [hitfound] only if face 0 is flagged, does not set [dark], and leaves
    the walk in tetrahedron 0. *)
Theorem no_match_reads_as_exit_0_0 (m : mesh2) (rayo rayd : float4) (s : walk)
    (findex adjtets : arr4 Z) (nodes : arr4 float4) (c wl : bool) :
  mesh_wf m = true ->
  valid_tet m (current_tet s) = true ->
  hitfound s = false ->
  tet_findex m (current_tet s) = Ok findex ->
  tet_adjtets m (current_tet s) = Ok adjtets ->
  tet_nodes m (current_tet s) = Ok nodes ->
  no_exit_match (edge_signs rayo rayd nodes) = true ->
  rd (face_is_constrained m) 0 = Ok c ->
  rd (face_is_wall m) 0 = Ok wl ->
  GetExitTet rayo rayd nodes findex adjtets (lastface s) = (0, 0) /\
  in_range 0 (facenum m) 0 = true /\ valid_tet m 0 = true /\
  (forall sg fi ad, exit_DCB sg = true -> at0 fi = 0 -> at0 ad = 0 ->
     resolve_exit sg fi ad = GetExitTet rayo rayd nodes findex adjtets (lastface s)) /\
  (forall nt nf, out_of_mesh nt nf = true <-> nt = -1 \/ nf = -1) /\
  out_of_mesh 0 0 = false /\
  exists s', walk_body m rayo rayd None s = Ok s' /\
             current_tet s' = 0 /\ nextface s' = Some 0 /\
             hitfound s' = c || wl /\
             dark (hit s') = dark (hit s).
Proof.
  intros W V H Ef Ea En N Ec Ew.
  assert (G : GetExitTet rayo rayd nodes findex adjtets (lastface s) = (0, 0))
    by (unfold GetExitTet; now apply resolve_exit_no_match).
  split; [exact G|].
  destruct (wf_tet_findex m (current_tet s) W V) as (fi & Ef' & F0 & _).
  split; [eapply in_range_nonempty; [|exact F0]; lia|].
  split; [eapply in_range_nonempty; [|exact V]; lia|].
  split.
  { intros sg fi' ad D Hf Ha. rewrite G, resolve_exit_cases.
    destruct (exit_ABC sg) eqn:E1; [exfalso; eauto using ABC_DCB|].
    destruct (exit_BAD sg) eqn:E2; [exfalso; eauto using BAD_DCB|].
    destruct (exit_CDA sg) eqn:E3; [exfalso; eauto using CDA_DCB|].
    rewrite D, Hf, Ha. reflexivity. }
  split.
  { intros nt nf. unfold out_of_mesh. rewrite orb_true_iff, !Z.eqb_eq. tauto. }
  split; [reflexivity|].
  exists (step_result None s nodes 0 0 c wl).
  split; [now apply walk_body_eq with (findex := findex) (adjtets := adjtets)|].
  unfold step_result. cbn. rewrite orb_false_r. auto.
Qed.

Lemma no_match_reads_as_exit_0_0_witness :
  GetExitTet (vec 1 1 1) (vec 1 1 (-1))
    (Arr4 (vec 0 0 0) (vec 4 0 0) (vec 0 4 0) (vec 0 0 4))
    (Arr4 3 4 5 6) (Arr4 0 (-1) (-1) (-1)) 0 = (0, 0).
Proof.
  refine (proj1 (no_match_reads_as_exit_0_0 two_tets (vec 1 1 1) (vec 1 1 (-1))
            (walk_start 1 (rayhit_init (vec 0 0 0)))
            (Arr4 3 4 5 6) (Arr4 0 (-1) (-1) (-1))
            (Arr4 (vec 0 0 0) (vec 4 0 0) (vec 0 4 0) (vec 0 0 4))
            false true _ _ _ _ _ _ _ _ _));
    vm_compute; reflexivity.
Defined.

(** ** Properties of [traverse_until_point] *)

(** C4, as the code has it. When the target lies in the start tetrahedron
    of a well-formed mesh, [traverse_until_point] stops the walk in its
    first pass: the result names the start tetrahedron and the exit face
    resolved there, [dark] is left alone, and the depth is 80 on return.
    The stop tests on the resolved exit still run in that pass, so
    [constrained] and [wall] are set when that face is flagged or when
    there is no neighbour. *)
Theorem traverse_until_point_target_in_start (m : mesh2) (rayo rayd : float4)
    (start : Z) (e : float4) (d : rayhit) :
  mesh_wf m = true -> valid_tet m start = true ->
  contains m e start = Ok true ->
  exists d' nf nt c wl,
    traverse_until_point m rayo rayd start e d = Ok d' /\
    exit_of m rayo rayd start 0 = Ok (nf, nt) /\
    rd (face_is_constrained m) nf = Ok c /\
    rd (face_is_wall m) nf = Ok wl /\
    tet d' = start /\ face d' = nf /\ depth d' = 80 /\
    dark d' = dark d /\
    constrained d' = constrained d || c /\
    wall d' = wall d || wl || out_of_mesh nt nf.
Proof.
  intros W V C.
  destruct (wf_exit_of m rayo rayd start 0 W V)
    as (findex & adjtets & nodes & nf & nt & Ef & Ea & En & Eg & Rf & Rt).
  destruct (wf_face_flags m nf W Rf) as (c & wl & Ec & Ew).
  unfold contains in C. rewrite En in C. cbn [bind] in C.
  assert (In : inside_target (Some e) nodes = true) by (cbn; congruence).
  set (s0 := walk_start start d).
  assert (B : walk_body m rayo rayd (Some e) s0
              = Ok (step_result (Some e) s0 nodes nf nt c wl))
    by (apply walk_body_eq with (findex := findex) (adjtets := adjtets);
        try assumption; reflexivity).
  set (s1 := step_result (Some e) s0 nodes nf nt c wl) in *.
  assert (H1 : hitfound s1 = true)
    by (unfold s1, step_result; cbn [hitfound]; now rewrite In).
  destruct (walk_loop_hit m rayo rayd (Some e) 79%nat (incr_depth s1))
    as (s2 & L & H2 & D2).
  { exact H1. }
  { cbn. lia. }
  { cbn. lia. }
  exists (hit s2), nf, nt, c, wl.
  split.
  { unfold traverse_until_point, traverse. change 80%nat with (S 79).
    rewrite walk_loop_S. fold s0. change (depth (hit s0) <? 80) with true.
    cbv iota. rewrite B. cbn [bind]. rewrite L. cbn [bind].
    unfold walk_finish. now rewrite H2. }
  split; [unfold exit_of; rewrite Ef, Ea, En; cbn [bind]; now rewrite Eg|].
  split; [exact Ec|]. split; [exact Ew|].
  rewrite D2. unfold s1, step_result.
  cbn [incr_depth hit set_depth tet face depth dark constrained wall pos
       current_tet s0 walk_start].
  rewrite In. cbn [orb].
  repeat split; reflexivity.
Qed.

Lemma traverse_until_point_target_in_start_witness :
  exists d' nf nt c wl,
    traverse_until_point two_tets (vec 1 1 1) (vec 1 0 0) 1 (vec 1 1 1)
      (rayhit_init (vec 0 0 0)) = Ok d' /\
    exit_of two_tets (vec 1 1 1) (vec 1 0 0) 1 0 = Ok (nf, nt) /\
    rd (face_is_constrained two_tets) nf = Ok c /\
    rd (face_is_wall two_tets) nf = Ok wl /\
    tet d' = 1 /\ face d' = nf /\ depth d' = 80 /\
    dark d' = false /\
    constrained d' = false || c /\
    wall d' = false || wl || out_of_mesh nt nf.
Proof.
  apply (traverse_until_point_target_in_start two_tets (vec 1 1 1) (vec 1 0 0) 1
           (vec 1 1 1) (rayhit_init (vec 0 0 0)));
    vm_compute; reflexivity.
Defined.

(** C4 does not hold as stated: the target (0.1, 0.1, 0.1) lies in the only
    tetrahedron of [unit_tet], and the result has depth 80 and the wall
    flag set. *)
Lemma traverse_until_point_depth_and_wall :
  contains unit_tet origin_0_1 0 = Ok true /\
  ~ (exists d', traverse_until_point unit_tet origin_0_1 (vec 1 1 1) 0 origin_0_1
                  (rayhit_init (vec 0 0 0)) = Ok d' /\ depth d' = 0) /\
  ~ (exists d', traverse_until_point unit_tet origin_0_1 (vec 1 1 1) 0 origin_0_1
                  (rayhit_init (vec 0 0 0)) = Ok d' /\ wall d' = false).
Proof.
  split; [vm_compute; reflexivity|].
  split; intros (d' & T & F); vm_compute in T; inversion T; subst; discriminate F.
Qed.

(** ** Scenarios *)

(** C1, evaluated on the code. The ray from (1,1,1) with direction
    (1,1,-1) leaves tetrahedron 1 of [two_tets] through its edge B C: no
    face of the tetrahedron matches. The traversal takes the initial
    outputs of [GetExitTet] for an exit through face 0, a wall of the other
    tetrahedron, and reports a wall hit; [dark] is not set. *)
Theorem no_match_reported_as_wall_hit :
  mesh_wf two_tets = true /\ valid_tet two_tets 1 = true /\
  no_exit_in two_tets (vec 1 1 1) (vec 1 1 (-1)) 1 = Ok true /\
  forall p, traverse_ray two_tets (vec 1 1 1) (vec 1 1 (-1)) 1 (rayhit_init p)
            = Ok (mk_rayhit p 1 0 80 true false false).
Proof.
  repeat split; vm_compute; reflexivity.
Qed.

(** C2, as the code has it. In the unit tetrahedron with four wall faces
    and no neighbour, the ray from (0.1, 0.1, 0.1) with direction (1,1,1)
    started in tetrahedron 0 returns wall set, tetrahedron 0 and face 0,
    the face of the nodes 3, 2, 1 opposite the vertex (0,0,0) of node 0;
    the depth returned is 80. *)
Theorem unit_tet_scenario (p : float4) :
  traverse_ray unit_tet origin_0_1 (vec 1 1 1) 0 (rayhit_init p)
    = Ok (mk_rayhit p 0 0 80 true false false) /\
  face_nodes unit_tet 0 = Ok (3, 2, 1) /\
  rd (t_nindex1 unit_tet) 0 = Ok 0 /\
  node_pos unit_tet 0 = Ok (vec 0 0 0) /\
  rd (t_findex1 unit_tet) 0 = Ok 0.
Proof.
  repeat split; vm_compute; reflexivity.
Qed.

(** C2 does not hold as stated: the depth of the result is not 0. *)
Lemma unit_tet_scenario_depth :
  ~ (exists d', traverse_ray unit_tet origin_0_1 (vec 1 1 1) 0
                  (rayhit_init (vec 0 0 0)) = Ok d' /\
                wall d' = true /\ tet d' = 0 /\ depth d' = 0).
Proof.
  intros (d' & T & _ & _ & D). vm_compute in T. inversion T; subst.
  discriminate D.
Qed.

(** ** The point locator *)

(** When the locator returns an index, it is the smallest index whose
    tetrahedron contains the point. *)
Lemma locate_from_first (m : mesh2) (p : float4) :
  forall fuel i r,
    locate_from fuel m p i = Ok r ->
    i <= r < tetnum m /\ contains m p r = Ok true /\
    forall j, i <= j < r -> contains m p j = Ok false.
Proof.
  induction fuel as [|fuel IH]; intros i r L; cbn [locate_from] in L;
    destruct (i <? tetnum m) eqn:E; try discriminate.
  apply Z.ltb_lt in E.
  apply bind_ok in L. destruct L as (v & En & L).
  destruct (IsPointInTetrahedron (at0 v) (at1 v) (at2 v) (at3 v) p) eqn:C.
  - inversion L; subst. split; [lia|]. split.
    + unfold contains. rewrite En. cbn [bind]. now rewrite C.
    + intros j Hj. lia.
  - apply IH in L. destruct L as (R & Cr & Before).
    split; [lia|]. split; [exact Cr|].
    intros j Hj. destruct (Z.eq_dec j i) as [->|Ne].
    + unfold contains. rewrite En. cbn [bind]. now rewrite C.
    + apply Before. lia.
Qed.

(** When no tetrahedron from [i] on contains the point, the scan runs off
    the end of the function. *)
Lemma locate_from_none (m : mesh2) (p : float4) :
  forall fuel i,
    (Z.to_nat (tetnum m - i) <= fuel)%nat ->
    (forall j, i <= j < tetnum m -> contains m p j = Ok false) ->
    locate_from fuel m p i = Fault MissingReturn.
Proof.
  induction fuel as [|fuel IH]; intros i F N; cbn [locate_from];
    destruct (i <? tetnum m) eqn:E; try reflexivity;
    apply Z.ltb_lt in E; try lia.
  pose proof (N i ltac:(lia)) as C. unfold contains in C.
  destruct (tet_nodes m i) as [v|e]; [|discriminate]. cbn [bind] in *.
  inversion C as [C']. rewrite C'.
  apply IH; [lia|]. intros j Hj. apply N. lia.
Qed.

Lemma GetTetrahedraFromPoint_first (m : mesh2) (p : float4) (r : Z) :
  GetTetrahedraFromPoint m p = Ok r ->
  0 <= r < tetnum m /\ contains m p r = Ok true /\
  forall j, 0 <= j < r -> contains m p j = Ok false.
Proof. apply locate_from_first. Qed.

Lemma GetTetrahedraFromPoint_none (m : mesh2) (p : float4) :
  (forall j, 0 <= j < tetnum m -> contains m p j = Ok false) ->
  GetTetrahedraFromPoint m p = Fault MissingReturn.
Proof. intros N. apply locate_from_none; [lia|exact N]. Qed.

(** C3, evaluated on the code. The point (2,2,2) lies outside the only
    tetrahedron of [unit_tet]; the scan ends without a match and the
    function ends without a [return]: no value is returned, where the
    property asks for an explicit "not found". *)
Theorem locate_outside_has_no_return :
  mesh_wf unit_tet = true /\
  contains unit_tet (vec 2 2 2) 0 = Ok false /\
  GetTetrahedraFromPoint unit_tet (vec 2 2 2) = Fault MissingReturn /\
  GetTetrahedraFromPoint empty_mesh (vec 2 2 2) = Fault MissingReturn.
Proof.
  repeat split; vm_compute; reflexivity.
Qed.

(** ** The bounding box *)

(** C8, evaluated on the code. For the four nodes of the unit tetrahedron
    the componentwise minimum is (0,0,0) and the maximum (1,1,1);
    [init_BBox] returns them the other way round, the maximum in [min] and
    the minimum in [max], so that no node but one lies between the corners. *)
Theorem init_BBox_corners_swapped :
  mesh_wf unit_tet = true /\
  init_BBox unit_tet = Ok (mk_BBox (vec 1 1 1) (vec 0 0 0)) /\
  node_pos unit_tet 0 = Ok (vec 0 0 0) /\
  node_pos unit_tet 1 = Ok (vec 1 0 0) /\
  (F32.of_Z 0 <? F32.of_Z 1)%f32 = true.
Proof.
  repeat split; vm_compute; reflexivity.
Qed.

(** ** Zeros and NaN in the vector primitives *)

Lemma signf_zero_or_nan (f : float) : zero_or_nan f = true -> signf f = 0.
Proof. destruct f; try discriminate; reflexivity. Qed.

Lemma mul_null_l (a b : float) : zero_or_nan a = true -> zero_or_nan (a * b)%f32 = true.
Proof. destruct a; try discriminate; destruct b; reflexivity. Qed.

Lemma mul_null_r (a b : float) : zero_or_nan b = true -> zero_or_nan (a * b)%f32 = true.
Proof. destruct b; try discriminate; destruct a; reflexivity. Qed.

Lemma add_null (a b : float) :
  zero_or_nan a = true -> zero_or_nan b = true -> zero_or_nan (a + b)%f32 = true.
Proof.
  destruct a as [sa|sa| |sa ma ea]; try discriminate;
    destruct b as [sb|sb| |sb mb eb]; try discriminate; intros _ _;
    try reflexivity.
  destruct sa, sb; reflexivity.
Qed.

Lemma sub_null (a b : float) :
  zero_or_nan a = true -> zero_or_nan b = true -> zero_or_nan (a - b)%f32 = true.
Proof.
  destruct a as [sa|sa| |sa ma ea]; try discriminate;
    destruct b as [sb|sb| |sb mb eb]; try discriminate; intros _ _;
    try reflexivity.
  destruct sa, sb; reflexivity.
Qed.

(** [a - a] is a zero, or NaN when [a] is infinite or NaN. *)
Lemma sub_self_null (a : float) : zero_or_nan (a - a)%f32 = true.
Proof.
  destruct a as [s|s| |s m e].
  - destruct s; reflexivity.
  - destruct s; reflexivity.
  - reflexivity.
  - unfold F32.sub, SFsub. cbv zeta.
    replace (cond_Zopp s (Z.pos (fst (shl_align m e (Z.min e e)))) -
             cond_Zopp s (Z.pos (fst (shl_align m e (Z.min e e))))) with 0 by lia.
    reflexivity.
Qed.

Lemma null_vector_parts (v : float4) :
  null_vector v = true ->
  zero_or_nan (x v) = true /\ zero_or_nan (y v) = true /\ zero_or_nan (z v) = true.
Proof.
  unfold null_vector. intros H.
  apply andb_prop in H. destruct H as [H Hz].
  apply andb_prop in H. destruct H as [Hx Hy]. auto.
Qed.

Lemma null_vector_intro (a b c d : float) :
  zero_or_nan a = true -> zero_or_nan b = true -> zero_or_nan c = true ->
  null_vector (make_float4 a b c d) = true.
Proof. intros Ha Hb Hc. unfold null_vector. cbn. now rewrite Ha, Hb, Hc. Qed.

Lemma f4_sub_self (a b : float4) : same_point a b -> null_vector (f4_sub a b) = true.
Proof.
  intros (Hx & Hy & Hz). unfold f4_sub. rewrite Hx, Hy, Hz.
  apply null_vector_intro; apply sub_self_null.
Qed.

Lemma Cross_null_l (a b : float4) : null_vector a = true -> null_vector (Cross a b) = true.
Proof.
  intros H. apply null_vector_parts in H. destruct H as (Hx & Hy & Hz).
  unfold Cross. apply null_vector_intro; apply sub_null; now apply mul_null_l.
Qed.

Lemma Cross_null_r (a b : float4) : null_vector b = true -> null_vector (Cross a b) = true.
Proof.
  intros H. apply null_vector_parts in H. destruct H as (Hx & Hy & Hz).
  unfold Cross. apply null_vector_intro; apply sub_null; now apply mul_null_r.
Qed.

Lemma Dot_null_l (a b : float4) : null_vector a = true -> zero_or_nan (Dot a b) = true.
Proof.
  intros H. apply null_vector_parts in H. destruct H as (Hx & Hy & Hz).
  unfold Dot. repeat apply add_null; now apply mul_null_l.
Qed.

Lemma Dot_null_r (a b : float4) : null_vector b = true -> zero_or_nan (Dot a b) = true.
Proof.
  intros H. apply null_vector_parts in H. destruct H as (Hx & Hy & Hz).
  unfold Dot. repeat apply add_null; now apply mul_null_r.
Qed.

Lemma same_point_refl (a : float4) : same_point a a.
Proof. repeat split. Qed.

(** ** The containment predicate on its own vertices *)

Lemma SameSide_orient (v1 v2 v3 v4 p : float4) :
  SameSide v1 v2 v3 v4 p = (orient v1 v2 v3 v4 =? orient v1 v2 v3 p).
Proof. reflexivity. Qed.

(** A point at the first vertex of a face is on the side of the opposite
    vertex only when that vertex is itself in the plane of the face. *)
Lemma SameSide_at_base (v1 v2 v3 v4 p : float4) :
  same_point p v1 -> SameSide v1 v2 v3 v4 p = (orient v1 v2 v3 v4 =? 0).
Proof.
  intros E. rewrite SameSide_orient. f_equal. unfold orient.
  apply signf_zero_or_nan, Dot_null_r, f4_sub_self, E.
Qed.

(** X1. The containment predicate excludes the boundary at the vertices:
    none of the four vertices of a tetrahedron that is not degenerate is
    inside it. *)
Theorem vertices_are_outside (v1 v2 v3 v4 : float4) :
  nondegenerate v1 v2 v3 v4 = true ->
  IsPointInTetrahedron v1 v2 v3 v4 v1 = false /\
  IsPointInTetrahedron v1 v2 v3 v4 v2 = false /\
  IsPointInTetrahedron v1 v2 v3 v4 v3 = false /\
  IsPointInTetrahedron v1 v2 v3 v4 v4 = false.
Proof.
  unfold nondegenerate, nonzero. intros N.
  apply andb_prop in N. destruct N as [N N4].
  apply andb_prop in N. destruct N as [N N3].
  apply andb_prop in N. destruct N as [N1 N2].
  apply negb_true_iff in N1, N2, N3, N4.
  unfold IsPointInTetrahedron. repeat split.
  - rewrite (SameSide_at_base v1 v2 v3 v4 v1 (same_point_refl v1)), N1. reflexivity.
  - rewrite (SameSide_at_base v2 v3 v4 v1 v2 (same_point_refl v2)), N2.
    now rewrite andb_false_r.
  - rewrite (SameSide_at_base v3 v4 v1 v2 v3 (same_point_refl v3)), N3.
    now rewrite andb_false_r.
  - rewrite (SameSide_at_base v4 v1 v2 v3 v4 (same_point_refl v4)), N4.
    now rewrite andb_false_r.
Qed.

Lemma vertices_are_outside_witness :
  IsPointInTetrahedron (vec 0 0 0) (vec 1 0 0) (vec 0 1 0) (vec 0 0 1) (vec 0 0 0) = false /\
  IsPointInTetrahedron (vec 0 0 0) (vec 1 0 0) (vec 0 1 0) (vec 0 0 1) (vec 1 0 0) = false /\
  IsPointInTetrahedron (vec 0 0 0) (vec 1 0 0) (vec 0 1 0) (vec 0 0 1) (vec 0 1 0) = false /\
  IsPointInTetrahedron (vec 0 0 0) (vec 1 0 0) (vec 0 1 0) (vec 0 0 1) (vec 0 0 1) = false.
Proof.
  apply (vertices_are_outside (vec 0 0 0) (vec 1 0 0) (vec 0 1 0) (vec 0 0 1)).
  vm_compute. reflexivity.
Defined.

(** X2. A tetrahedron collapsed to one point contains every point: all
    four tests compare the sign of a zero or NaN with the sign of a zero or
    NaN. The locator then answers with such a tetrahedron for every query,
    when it is the first of the mesh. *)
Theorem collapsed_tetrahedron_contains_all (m : mesh2) (v p : float4) :
  0 < tetnum m ->
  tet_nodes m 0 = Ok (Arr4 v v v v) ->
  IsPointInTetrahedron v v v v p = true /\
  IsPointInThisTet m p 0 = Ok true /\
  GetTetrahedraFromPoint m p = Ok 0.
Proof.
  intros T N.
  assert (S : SameSide v v v v p = true).
  { rewrite SameSide_orient. unfold orient.
    rewrite !signf_zero_or_nan; [reflexivity| |];
      apply Dot_null_l, Cross_null_l, f4_sub_self, same_point_refl. }
  assert (I : IsPointInTetrahedron v v v v p = true)
    by (unfold IsPointInTetrahedron; now rewrite S).
  split; [exact I|]. split.
  - unfold IsPointInThisTet. rewrite N. cbn [bind at0 at1 at2 at3]. now rewrite I.
  - unfold GetTetrahedraFromPoint.
    destruct (Z.to_nat (tetnum m)) as [|fuel] eqn:F; [lia|].
    cbn [locate_from]. destruct (0 <? tetnum m) eqn:E; [|apply Z.ltb_ge in E; lia].
    rewrite N. cbn [bind at0 at1 at2 at3]. now rewrite I.
Qed.

Lemma collapsed_tetrahedron_contains_all_witness :
  IsPointInTetrahedron (vec 3 5 7) (vec 3 5 7) (vec 3 5 7) (vec 3 5 7) (vec 100 0 0) = true /\
  IsPointInThisTet collapsed_tet (vec 100 0 0) 0 = Ok true /\
  GetTetrahedraFromPoint collapsed_tet (vec 100 0 0) = Ok 0.
Proof.
  apply (collapsed_tetrahedron_contains_all collapsed_tet (vec 3 5 7) (vec 100 0 0));
    [reflexivity | vm_compute; reflexivity].
Defined.

(** ** Special rays in the exit-face resolver *)

Lemma ScTP_null_q (q a b : float4) : null_vector q = true -> signf (ScTP q a b) = 0.
Proof. intros H. apply signf_zero_or_nan. unfold ScTP. now apply Dot_null_l. Qed.

Lemma ScTP_null_a (q a b : float4) : null_vector a = true -> signf (ScTP q a b) = 0.
Proof.
  intros H. apply signf_zero_or_nan. unfold ScTP.
  now apply Dot_null_r, Cross_null_l.
Qed.

Lemma ScTP_null_b (q a b : float4) : null_vector b = true -> signf (ScTP q a b) = 0.
Proof.
  intros H. apply signf_zero_or_nan. unfold ScTP.
  now apply Dot_null_r, Cross_null_r.
Qed.

Lemma exit_ABC_signs s :
  exit_ABC s = true -> sQAB s <> 0 /\ sQAC s <> 0 /\ sQBC s <> 0.
Proof.
  unfold exit_ABC, nonzero. intros H. apply andb_prop in H. destruct H as [H _].
  apply andb_prop in H. destruct H as [H H3]. apply andb_prop in H. destruct H as [H1 H2].
  apply negb_true_iff in H1, H2, H3. now rewrite Z.eqb_neq in H1, H2, H3.
Qed.

Lemma exit_BAD_signs s :
  exit_BAD s = true -> sQAB s <> 0 /\ sQAD s <> 0 /\ sQBD s <> 0.
Proof.
  unfold exit_BAD, nonzero. intros H. apply andb_prop in H. destruct H as [H _].
  apply andb_prop in H. destruct H as [H H3]. apply andb_prop in H. destruct H as [H1 H2].
  apply negb_true_iff in H1, H2, H3. now rewrite Z.eqb_neq in H1, H2, H3.
Qed.

Lemma exit_CDA_signs s :
  exit_CDA s = true -> sQAD s <> 0 /\ sQAC s <> 0 /\ sQCD s <> 0.
Proof.
  unfold exit_CDA, nonzero. intros H. apply andb_prop in H. destruct H as [H _].
  apply andb_prop in H. destruct H as [H H3]. apply andb_prop in H. destruct H as [H1 H2].
  apply negb_true_iff in H1, H2, H3. now rewrite Z.eqb_neq in H1, H2, H3.
Qed.

Lemma exit_DCB_signs s :
  exit_DCB s = true -> sQBC s <> 0 /\ sQBD s <> 0 /\ sQCD s <> 0.
Proof.
  unfold exit_DCB, nonzero. intros H. apply andb_prop in H. destruct H as [H _].
  apply andb_prop in H. destruct H as [H H3]. apply andb_prop in H. destruct H as [H1 H2].
  apply negb_true_iff in H1, H2, H3. now rewrite Z.eqb_neq in H1, H2, H3.
Qed.

Lemma not_exit (b : bool) : (b = true -> False) -> b = false.
Proof. destruct b; [intros H; exfalso; now apply H|reflexivity]. Qed.

Lemma vertex_offset_null (n ray_o : float4) :
  same_point ray_o n ->
  null_vector (f4_sub (make_float4 (x n) (y n) (z n) F32.zero) ray_o) = true.
Proof.
  intros (Hx & Hy & Hz). apply f4_sub_self. repeat split; cbn; congruence.
Qed.

(** X3. A ray that starts at a vertex of the tetrahedron can only be
    resolved to the face slot of that vertex, the face opposite to it: the
    three products of the edges at the vertex have sign 0. *)
Theorem ray_from_vertex_exits_opposite_face (k : nat) (ray_o ray_d : float4)
    (nodes : arr4 float4) (findex adjtet : arr4 Z) (lface : Z) :
  same_point ray_o (nth4 k nodes) ->
  GetExitTet ray_o ray_d nodes findex adjtet lface = (0, 0) \/
  GetExitTet ray_o ray_d nodes findex adjtet lface = (nth4 k findex, nth4 k adjtet).
Proof.
  intros E. unfold GetExitTet. rewrite resolve_exit_cases.
  set (s := edge_signs ray_o ray_d nodes).
  destruct k as [|[|[|k]]]; cbn [nth4] in *;
    pose proof (vertex_offset_null _ _ E) as N.
  - assert (AB : sQAB s = 0) by (apply ScTP_null_a; exact N).
    assert (AC : sQAC s = 0) by (apply ScTP_null_a; exact N).
    assert (AD : sQAD s = 0) by (apply ScTP_null_a; exact N).
    rewrite (not_exit (exit_ABC s)) by (intros X; apply exit_ABC_signs in X; tauto).
    rewrite (not_exit (exit_BAD s)) by (intros X; apply exit_BAD_signs in X; tauto).
    rewrite (not_exit (exit_CDA s)) by (intros X; apply exit_CDA_signs in X; tauto).
    destruct (exit_DCB s); auto.
  - assert (AB : sQAB s = 0) by (apply ScTP_null_b; exact N).
    assert (BC : sQBC s = 0) by (apply ScTP_null_a; exact N).
    assert (BD : sQBD s = 0) by (apply ScTP_null_a; exact N).
    rewrite (not_exit (exit_ABC s)) by (intros X; apply exit_ABC_signs in X; tauto).
    rewrite (not_exit (exit_BAD s)) by (intros X; apply exit_BAD_signs in X; tauto).
    rewrite (not_exit (exit_DCB s)) by (intros X; apply exit_DCB_signs in X; tauto).
    destruct (exit_CDA s); auto.
  - assert (BC : sQBC s = 0) by (apply ScTP_null_b; exact N).
    assert (AC : sQAC s = 0) by (apply ScTP_null_b; exact N).
    assert (CD : sQCD s = 0) by (apply ScTP_null_a; exact N).
    rewrite (not_exit (exit_ABC s)) by (intros X; apply exit_ABC_signs in X; tauto).
    rewrite (not_exit (exit_CDA s)) by (intros X; apply exit_CDA_signs in X; tauto).
    rewrite (not_exit (exit_DCB s)) by (intros X; apply exit_DCB_signs in X; tauto).
    destruct (exit_BAD s); auto.
  - assert (AD : sQAD s = 0) by (apply ScTP_null_b; exact N).
    assert (BD : sQBD s = 0) by (apply ScTP_null_b; exact N).
    assert (CD : sQCD s = 0) by (apply ScTP_null_b; exact N).
    rewrite (not_exit (exit_BAD s)) by (intros X; apply exit_BAD_signs in X; tauto).
    rewrite (not_exit (exit_CDA s)) by (intros X; apply exit_CDA_signs in X; tauto).
    rewrite (not_exit (exit_DCB s)) by (intros X; apply exit_DCB_signs in X; tauto).
    destruct (exit_ABC s); auto.
Qed.

Lemma ray_from_vertex_exits_opposite_face_witness :
  GetExitTet (vec 0 4 0) (vec 1 (-1) 1)
    (Arr4 (vec 0 0 0) (vec 4 0 0) (vec 0 4 0) (vec 0 0 4))
    (Arr4 3 4 5 6) (Arr4 0 (-1) (-1) (-1)) 0 = (0, 0) \/
  GetExitTet (vec 0 4 0) (vec 1 (-1) 1)
    (Arr4 (vec 0 0 0) (vec 4 0 0) (vec 0 4 0) (vec 0 0 4))
    (Arr4 3 4 5 6) (Arr4 0 (-1) (-1) (-1)) 0 = (5, -1).
Proof.
  apply (ray_from_vertex_exits_opposite_face 2 (vec 0 4 0) (vec 1 (-1) 1)
           (Arr4 (vec 0 0 0) (vec 4 0 0) (vec 0 4 0) (vec 0 0 4))
           (Arr4 3 4 5 6) (Arr4 0 (-1) (-1) (-1)) 0).
  repeat split.
Defined.

(** X4. A direction whose components are zeros (or NaN) matches no face,
    whatever the tetrahedron and the origin: the resolver returns its
    initial outputs. *)
Theorem null_direction_matches_no_face (ray_o ray_d : float4)
    (nodes : arr4 float4) (findex adjtet : arr4 Z) (lface : Z) :
  null_vector ray_d = true ->
  no_exit_match (edge_signs ray_o ray_d nodes) = true /\
  GetExitTet ray_o ray_d nodes findex adjtet lface = (0, 0).
Proof.
  intros N.
  assert (M : no_exit_match (edge_signs ray_o ray_d nodes) = true).
  { set (s := edge_signs ray_o ray_d nodes).
    assert (AB : sQAB s = 0) by (apply ScTP_null_q; exact N).
    assert (AD : sQAD s = 0) by (apply ScTP_null_q; exact N).
    assert (BC : sQBC s = 0) by (apply ScTP_null_q; exact N).
    unfold no_exit_match.
    rewrite (not_exit (exit_ABC s)) by (intros X; apply exit_ABC_signs in X; tauto).
    rewrite (not_exit (exit_BAD s)) by (intros X; apply exit_BAD_signs in X; tauto).
    rewrite (not_exit (exit_CDA s)) by (intros X; apply exit_CDA_signs in X; tauto).
    rewrite (not_exit (exit_DCB s)) by (intros X; apply exit_DCB_signs in X; tauto).
    reflexivity. }
  split; [exact M|]. unfold GetExitTet. now apply resolve_exit_no_match.
Qed.

Lemma null_direction_matches_no_face_witness :
  no_exit_match (edge_signs (vec 1 1 1) (vec 0 0 0)
                   (Arr4 (vec 0 0 0) (vec 4 0 0) (vec 0 4 0) (vec 0 0 4))) = true /\
  GetExitTet (vec 1 1 1) (vec 0 0 0)
    (Arr4 (vec 0 0 0) (vec 4 0 0) (vec 0 4 0) (vec 0 0 4))
    (Arr4 3 4 5 6) (Arr4 0 (-1) (-1) (-1)) 0 = (0, 0).
Proof.
  apply (null_direction_matches_no_face (vec 1 1 1) (vec 0 0 0)
           (Arr4 (vec 0 0 0) (vec 4 0 0) (vec 0 4 0) (vec 0 0 4))
           (Arr4 3 4 5 6) (Arr4 0 (-1) (-1) (-1)) 0).
  reflexivity.
Defined.

(** ** The loop without [break] *)

Lemma with_depth_same (s : walk) : with_depth s (depth (hit s)) = s.
Proof. destruct s as [c nt nf lf h d]. destruct d. reflexivity. Qed.

(** The body does not look at [d.depth]. *)
Lemma walk_body_with_depth m rayo rayd target s k :
  walk_body m rayo rayd target (with_depth s k) =
    s' <- walk_body m rayo rayd target s ;; Ok (with_depth s' k).
Proof.
  destruct (hitfound s) eqn:H.
  - rewrite !walk_body_hit by (cbn; exact H). reflexivity.
  - destruct (walk_body m rayo rayd target s) as [s1|e] eqn:B; cbn [bind].
    + apply walk_body_inv in B; [|exact H].
      destruct B as (findex & adjtets & nodes & nf & nt & c & wl
                     & Ef & Ea & En & Eg & Ec & Ew & ->).
      rewrite (walk_body_eq m rayo rayd target (with_depth s k)
                 findex adjtets nodes nf nt c wl); try assumption; reflexivity.
    + destruct (walk_body m rayo rayd target (with_depth s k)) as [s2|e2] eqn:B2.
      * apply walk_body_inv in B2; [|exact H].
        destruct B2 as (findex & adjtets & nodes & nf & nt & c & wl
                        & Ef & Ea & En & Eg & Ec & Ew & _).
        rewrite (walk_body_eq m rayo rayd target s findex adjtets nodes nf nt c wl)
          in B; try assumption. discriminate.
      * apply walk_body_fault in B. apply walk_body_fault in B2. congruence.
Qed.

(** A state that a pass of the body leaves as it is comes out of the loop
    with only [d.depth] counted up to the bound. *)
Lemma walk_loop_fixed m rayo rayd target :
  forall fuel s,
    walk_body m rayo rayd target s = Ok s ->
    depth (hit s) <= 80 ->
    (Z.to_nat (80 - depth (hit s)) <= fuel)%nat ->
    walk_loop fuel m rayo rayd target s = Ok (with_depth s 80).
Proof.
  induction fuel as [|fuel IH]; intros s B D F.
  - rewrite walk_loop_done by lia. f_equal.
    replace 80 with (depth (hit s)) by lia. symmetry. apply with_depth_same.
  - rewrite walk_loop_S. destruct (depth (hit s) <? 80) eqn:E.
    + apply Z.ltb_lt in E. rewrite B. cbn [bind].
      change (incr_depth s) with (with_depth s (depth (hit s) + 1)).
      rewrite IH.
      * reflexivity.
      * rewrite walk_body_with_depth, B. reflexivity.
      * cbn [with_depth hit set_depth depth]. lia.
      * cbn [with_depth hit set_depth depth]. lia.
    + apply Z.ltb_ge in E. f_equal.
      replace 80 with (depth (hit s)) by lia. symmetry. apply with_depth_same.
Qed.

Lemma first_stop_with_depth m rayo rayd target k :
  forall n s,
    first_stop n m rayo rayd target (with_depth s k) =
      s' <- first_stop n m rayo rayd target s ;; Ok (with_depth s' k).
Proof.
  induction n as [|n IH]; intros s; cbn [first_stop]; [reflexivity|].
  rewrite walk_body_with_depth.
  destruct (walk_body m rayo rayd target s) as [s1|e]; cbn [bind]; [|reflexivity].
  cbn [with_depth hitfound]. destruct (hitfound s1); [reflexivity|apply IH].
Qed.

Lemma walk_loop_first_stop m rayo rayd target :
  forall n s,
    hitfound s = false -> depth (hit s) = 80 - Z.of_nat n ->
    walk_loop n m rayo rayd target s =
      s' <- first_stop n m rayo rayd target s ;; Ok (with_depth s' 80).
Proof.
  induction n as [|n IH]; intros s H D.
  - rewrite walk_loop_done by lia. cbn [first_stop bind]. f_equal.
    replace 80 with (depth (hit s)) by lia. symmetry. apply with_depth_same.
  - rewrite walk_loop_S. destruct (depth (hit s) <? 80) eqn:E;
      [|apply Z.ltb_ge in E; lia].
    cbn [first_stop].
    destruct (walk_body m rayo rayd target s) as [s1|e] eqn:B; cbn [bind];
      [|reflexivity].
    pose proof (walk_body_depth _ _ _ _ _ _ B) as D1.
    change (incr_depth s1) with (with_depth s1 (depth (hit s1) + 1)).
    destruct (hitfound s1) eqn:H1.
    + rewrite walk_loop_fixed.
      * reflexivity.
      * apply walk_body_hit. exact H1.
      * cbn [with_depth hit set_depth depth]. lia.
      * cbn [with_depth hit set_depth depth]. lia.
    + rewrite IH.
      * rewrite first_stop_with_depth.
        destruct (first_stop n m rayo rayd target s1); reflexivity.
      * exact H1.
      * cbn [with_depth hit set_depth depth]. lia.
Qed.

(** X6. The loops of [traverse_ray] and [traverse_until_point], which run
    80 times and skip the body once [hitfound] is set, return what a loop
    that leaves at the first hit returns, with the depth set to 80: the
    same result, and the same out-of-range read if there is one. *)
Theorem traversal_equals_walk_with_break (m : mesh2) (rayo rayd : float4)
    (start : Z) (e : float4) (d : rayhit) :
  traverse_ray m rayo rayd start d = traverse_with_break m rayo rayd None start d /\
  traverse_until_point m rayo rayd start e d =
    traverse_with_break m rayo rayd (Some e) start d.
Proof.
  unfold traverse_ray, traverse_until_point, traverse, traverse_with_break.
  split.
  - rewrite (walk_loop_first_stop m rayo rayd None 80 (walk_start start d))
      by reflexivity.
    destruct (first_stop 80 m rayo rayd None (walk_start start d)); reflexivity.
  - rewrite (walk_loop_first_stop m rayo rayd (Some e) 80 (walk_start start d))
      by reflexivity.
    destruct (first_stop 80 m rayo rayd (Some e) (walk_start start d)); reflexivity.
Qed.

(** ** Rays that never match a face *)

Lemma no_exit_body m rayo rayd s c0 w0 :
  mesh_wf m = true -> valid_tet m (current_tet s) = true ->
  hitfound s = false ->
  no_exit_in m rayo rayd (current_tet s) = Ok true ->
  rd (face_is_constrained m) 0 = Ok c0 -> rd (face_is_wall m) 0 = Ok w0 ->
  exists nodes,
    walk_body m rayo rayd None s = Ok (step_result None s nodes 0 0 c0 w0).
Proof.
  intros W V H N Ec Ew.
  destruct (wf_exit_of m rayo rayd (current_tet s) (lastface s) W V)
    as (findex & adjtets & nodes & nf & nt & Ef & Ea & En & Eg & _ & _).
  unfold no_exit_in in N. rewrite En in N. cbn [bind] in N.
  assert (M : no_exit_match (edge_signs rayo rayd nodes) = true) by congruence.
  exists nodes.
  apply walk_body_eq with (findex := findex) (adjtets := adjtets); try assumption.
  unfold GetExitTet. now apply resolve_exit_no_match.
Qed.

(** X5. A ray that matches no face in its start tetrahedron nor in
    tetrahedron 0 is handled as a ray through face 0 into tetrahedron 0,
    again and again: when face 0 is flagged the result is a hit of face 0
    reported for the start tetrahedron, otherwise the walk stays in
    tetrahedron 0 for the rest of the 80 passes and the result is dark. *)
Theorem ray_without_exit (m : mesh2) (rayo rayd : float4) (start : Z) (d : rayhit)
    (c0 w0 : bool) :
  mesh_wf m = true -> valid_tet m start = true ->
  no_exit_in m rayo rayd start = Ok true ->
  no_exit_in m rayo rayd 0 = Ok true ->
  rd (face_is_constrained m) 0 = Ok c0 -> rd (face_is_wall m) 0 = Ok w0 ->
  traverse_ray m rayo rayd start d =
    Ok (if c0 || w0
        then mk_rayhit (pos d) start 0 80 (wall d || w0) (constrained d || c0) (dark d)
        else mk_rayhit (pos d) 0 0 80 (wall d) (constrained d) true).
Proof.
  intros W V N N0 Ec Ew.
  destruct (no_exit_body m rayo rayd (walk_start start d) c0 w0)
    as (nodes & B); try assumption; try reflexivity.
  unfold traverse_ray, traverse. change 80%nat with (S 79).
  rewrite walk_loop_S. change (depth (hit (walk_start start d)) <? 80) with true.
  cbv iota. rewrite B. cbn [bind].
  set (s1 := step_result None (walk_start start d) nodes 0 0 c0 w0).
  destruct (c0 || w0) eqn:Stop.
  - assert (H1 : hitfound s1 = true)
      by (unfold s1, step_result; cbn; now rewrite orb_false_r).
    rewrite walk_loop_fixed.
    + cbn [bind]. unfold walk_finish, with_depth, incr_depth, s1, step_result.
      cbn. rewrite !orb_false_r, Stop. reflexivity.
    + apply walk_body_hit. exact H1.
    + cbn. lia.
    + unfold s1, step_result, incr_depth, walk_start.
      cbn [hit set_depth depth]. lia.
  - apply orb_false_elim in Stop. destruct Stop as [-> ->].
    assert (V0 : valid_tet m 0 = true)
      by (unfold valid_tet; eapply in_range_nonempty; [|exact V]; lia).
    destruct (no_exit_body m rayo rayd (incr_depth s1) false false)
      as (nodes' & B'); try assumption; try reflexivity.
    assert (Fix : walk_body m rayo rayd None (incr_depth s1) = Ok (incr_depth s1)).
    { rewrite B'. f_equal. unfold s1, step_result, incr_depth. cbn.
      rewrite !orb_false_r. reflexivity. }
    rewrite walk_loop_fixed.
    + cbn [bind]. unfold walk_finish, s1, step_result. cbn.
      rewrite !orb_false_r. reflexivity.
    + exact Fix.
    + cbn. lia.
    + unfold s1, step_result, incr_depth, walk_start.
      cbn [hit set_depth depth]. lia.
Qed.

Lemma ray_without_exit_witness :
  traverse_ray two_tets (vec 1 1 1) (vec 1 1 (-1)) 1 (rayhit_init (vec 0 0 0)) =
    Ok (mk_rayhit (vec 0 0 0) 1 0 80 true false false).
Proof.
  apply (ray_without_exit two_tets (vec 1 1 1) (vec 1 1 (-1)) 1
           (rayhit_init (vec 0 0 0)) false true);
    vm_compute; reflexivity.
Defined.

(** ** What a result says about the mesh *)

Lemma walk_loop_result m rayo rayd target start d d' :
  traverse m rayo rayd target start d = Ok d' ->
  exists s, walk_loop 80 m rayo rayd target (walk_start start d) = Ok s /\
            walk_finish s = Ok d'.
Proof. unfold traverse. intros T. now apply bind_ok in T. Qed.

Lemma traverse_names_mesh_elements m rayo rayd target start d d' :
  mesh_wf m = true -> valid_tet m start = true ->
  traverse m rayo rayd target start d = Ok d' ->
  valid_tet m (tet d') = true /\ in_range 0 (facenum m) (face d') = true.
Proof.
  intros W V T. apply walk_loop_result in T. destruct T as (s & L & Fi).
  set (P := fun s : walk =>
        if hitfound s
        then valid_tet m (tet (hit s)) = true /\
             in_range 0 (facenum m) (face (hit s)) = true
        else valid_tet m (current_tet s) = true /\
             match nextface s with
             | Some nf => in_range 0 (facenum m) nf = true
             | None => True
             end).
  assert (I : P s).
  { apply (walk_loop_inv P m rayo rayd target) with (fuel := 80%nat)
      (s := walk_start start d); [|unfold P; cbn; auto|exact L].
    intros s0 s1 P0 _ B. unfold P in *. destruct (hitfound s0) eqn:H.
    - rewrite walk_body_hit in B by assumption. inversion B; subst.
      cbn. rewrite H. exact P0.
    - destruct P0 as [V0 _].
      apply walk_body_inv in B; [|exact H].
      destruct B as (findex & adjtets & nodes & nf & nt & c & wl
                     & Ef & Ea & En & Eg & Ec & Ew & ->).
      destruct (wf_exit_of m rayo rayd (current_tet s0) (lastface s0) W V0)
        as (fi & ad & no & nf' & nt' & Ef' & Ea' & En' & Eg' & Rf & Rt).
      assert (fi = findex) by congruence. assert (ad = adjtets) by congruence.
      assert (no = nodes) by congruence. subst.
      assert (nf' = nf /\ nt' = nt) as [-> ->] by (split; congruence).
      unfold step_result, incr_depth. cbn.
      destruct (inside_target target nodes || c || wl || out_of_mesh nt nf) eqn:S.
      + auto.
      + split; [|exact Rf]. apply neighbour_valid with (nf := nf); [exact Rt|].
        apply orb_false_elim in S. tauto. }
  unfold P, walk_finish in *. destruct (hitfound s).
  - inversion Fi; subst. exact I.
  - destruct (nextface s); [|discriminate]. inversion Fi; subst. exact I.
Qed.

(** X7. In a well-formed mesh, started in a tetrahedron of the mesh, both
    traversals return, and the tetrahedron and the face named by the
    result are indices of the mesh, also when the result is dark. *)
Theorem result_names_mesh_elements (m : mesh2) (rayo rayd : float4) (start : Z)
    (e : float4) (d : rayhit) :
  mesh_wf m = true -> valid_tet m start = true ->
  exists d1 d2,
    traverse_ray m rayo rayd start d = Ok d1 /\
    traverse_until_point m rayo rayd start e d = Ok d2 /\
    valid_tet m (tet d1) = true /\ in_range 0 (facenum m) (face d1) = true /\
    valid_tet m (tet d2) = true /\ in_range 0 (facenum m) (face d2) = true.
Proof.
  intros W V.
  destruct (traverse_total m rayo rayd None start d W V) as (d1 & T1).
  destruct (traverse_total m rayo rayd (Some e) start d W V) as (d2 & T2).
  exists d1, d2. split; [exact T1|]. split; [exact T2|].
  destruct (traverse_names_mesh_elements _ _ _ _ _ _ _ W V T1).
  destruct (traverse_names_mesh_elements _ _ _ _ _ _ _ W V T2). auto.
Qed.

Lemma result_names_mesh_elements_witness :
  exists d1 d2,
    traverse_ray two_tets (vec 1 1 1) (vec 1 1 1) 1 (rayhit_init (vec 0 0 0)) = Ok d1 /\
    traverse_until_point two_tets (vec 1 1 1) (vec 1 1 1) 1 (vec 3 3 3)
      (rayhit_init (vec 0 0 0)) = Ok d2 /\
    valid_tet two_tets (tet d1) = true /\
    in_range 0 (facenum two_tets) (face d1) = true /\
    valid_tet two_tets (tet d2) = true /\
    in_range 0 (facenum two_tets) (face d2) = true.
Proof.
  apply (result_names_mesh_elements two_tets (vec 1 1 1) (vec 1 1 1) 1 (vec 3 3 3)
           (rayhit_init (vec 0 0 0))); reflexivity.
Defined.

(** X8. The flags of a result are those of the face it names. For a
    result whose flags were clear on entry: [constrained] is the
    constrained flag of the face; a dark result names a face that is
    neither constrained nor wall; a result that is not dark names the exit
    face resolved in the tetrahedron it names, and [wall] is set exactly
    when that face is a wall or has no tetrahedron behind it. *)
Theorem result_flags_are_face_flags (m : mesh2) (rayo rayd : float4) (start : Z)
    (d d' : rayhit) :
  wall d = false -> constrained d = false -> dark d = false ->
  traverse_ray m rayo rayd start d = Ok d' ->
  rd (face_is_constrained m) (face d') = Ok (constrained d') /\
  exists wl,
    rd (face_is_wall m) (face d') = Ok wl /\
    if dark d'
    then wl = false /\ wall d' = false /\ constrained d' = false
    else exists nt lf,
           exit_of m rayo rayd (tet d') lf = Ok (face d', nt) /\
           wall d' = wl || out_of_mesh nt (face d').
Proof.
  intros Hw Hc Hd T. apply walk_loop_result in T. destruct T as (s & L & Fi).
  set (P := fun s : walk =>
        dark (hit s) = false /\
        if hitfound s
        then exists nt lf c wl,
               exit_of m rayo rayd (tet (hit s)) lf = Ok (face (hit s), nt) /\
               rd (face_is_constrained m) (face (hit s)) = Ok c /\
               rd (face_is_wall m) (face (hit s)) = Ok wl /\
               constrained (hit s) = c /\
               wall (hit s) = wl || out_of_mesh nt (face (hit s))
        else wall (hit s) = false /\ constrained (hit s) = false /\
             match nextface s with
             | Some nf => rd (face_is_constrained m) nf = Ok false /\
                          rd (face_is_wall m) nf = Ok false
             | None => True
             end).
  assert (I : P s).
  { apply (walk_loop_inv P m rayo rayd None) with (fuel := 80%nat)
      (s := walk_start start d); [|unfold P; cbn; auto|exact L].
    intros s0 s1 [Dk P0] _ B. unfold P. destruct (hitfound s0) eqn:H.
    - rewrite walk_body_hit in B by assumption. inversion B; subst.
      cbn. rewrite H. auto.
    - destruct P0 as (W0 & C0 & _).
      apply walk_body_inv in B; [|exact H].
      destruct B as (findex & adjtets & nodes & nf & nt & c & wl
                     & Ef & Ea & En & Eg & Ec & Ew & ->).
      unfold step_result, incr_depth. cbn. rewrite W0, C0. cbn.
      split; [exact Dk|].
      destruct (c || wl || out_of_mesh nt nf) eqn:S.
      + exists nt, (lastface s0), c, wl.
        unfold exit_of. rewrite Ef, Ea, En. cbn [bind]. rewrite Eg. auto.
      + apply orb_false_elim in S. destruct S as [S O].
        apply orb_false_elim in S. destruct S as [-> ->].
        rewrite O. auto. }
  destruct I as [Dk I]. unfold walk_finish in Fi. destruct (hitfound s).
  - inversion Fi; subst. destruct I as (nt & lf & c & wl & Ex & Ec & Ew & Ce & We).
    split; [congruence|]. exists wl. split; [exact Ew|]. rewrite Dk. eauto.
  - destruct I as (W0 & C0 & I).
    destruct (nextface s) as [nf|]; [|discriminate]. inversion Fi; subst.
    destruct I as [Ec Ew]. cbn. rewrite C0. split; [exact Ec|].
    exists false. auto.
Qed.

Lemma result_flags_are_face_flags_witness :
  rd (face_is_constrained two_tets) 0 = Ok false /\
  exists wl,
    rd (face_is_wall two_tets) 0 = Ok wl /\
    exists nt lf,
      exit_of two_tets (vec 1 1 1) (vec 1 1 1) 0 lf = Ok (0, nt) /\
      true = wl || out_of_mesh nt 0.
Proof.
  apply (result_flags_are_face_flags two_tets (vec 1 1 1) (vec 1 1 1) 1
           (rayhit_init (vec 0 0 0)) (mk_rayhit (vec 0 0 0) 0 0 80 true false false));
    vm_compute; reflexivity.
Defined.

Lemma traverse_keeps m rayo rayd target start d d' :
  traverse m rayo rayd target start d = Ok d' ->
  pos d' = pos d /\
  implb (wall d) (wall d') = true /\
  implb (constrained d) (constrained d') = true /\
  implb (dark d) (dark d') = true.
Proof.
  intros T. apply walk_loop_result in T. destruct T as (s & L & Fi).
  set (P := fun s : walk =>
        pos (hit s) = pos d /\
        implb (wall d) (wall (hit s)) = true /\
        implb (constrained d) (constrained (hit s)) = true /\
        implb (dark d) (dark (hit s)) = true).
  assert (I : P s).
  { apply (walk_loop_inv P m rayo rayd target) with (fuel := 80%nat)
      (s := walk_start start d).
    - intros s0 s1 (Pp & Pw & Pc & Pd) _ B. unfold P.
      destruct (hitfound s0) eqn:H.
      + rewrite walk_body_hit in B by assumption. inversion B; subst.
        cbn. auto.
      + apply walk_body_inv in B; [|exact H].
        destruct B as (findex & adjtets & nodes & nf & nt & c & wl
                       & _ & _ & _ & _ & _ & _ & ->).
        unfold step_result, incr_depth. cbn. repeat split; try assumption.
        * destruct (wall d); [|reflexivity]. cbn in Pw. now rewrite Pw.
        * destruct (constrained d); [|reflexivity]. cbn in Pc. now rewrite Pc.
    - unfold P. cbn. repeat split.
      + destruct (wall d); reflexivity.
      + destruct (constrained d); reflexivity.
      + destruct (dark d); reflexivity.
    - exact L. }
  destruct I as (Pp & Pw & Pc & Pd). unfold walk_finish in Fi.
  destruct (hitfound s).
  - inversion Fi; subst. auto.
  - destruct (nextface s); [|discriminate]. inversion Fi; subst. cbn.
    repeat split; try assumption. destruct (dark d); reflexivity.
Qed.

(** X9. Neither traversal writes the hit position, and neither clears a
    flag: [pos] of the result is [pos] of the [rayhit] passed in, and a
    flag that is set on entry is set in the result. *)
Theorem traversals_keep_pos_and_flags (m : mesh2) (rayo rayd : float4) (start : Z)
    (e : float4) (d d1 d2 : rayhit) :
  traverse_ray m rayo rayd start d = Ok d1 ->
  traverse_until_point m rayo rayd start e d = Ok d2 ->
  (pos d1 = pos d /\
   implb (wall d) (wall d1) = true /\
   implb (constrained d) (constrained d1) = true /\
   implb (dark d) (dark d1) = true) /\
  (pos d2 = pos d /\
   implb (wall d) (wall d2) = true /\
   implb (constrained d) (constrained d2) = true /\
   implb (dark d) (dark d2) = true).
Proof.
  intros T1 T2. split; eapply traverse_keeps; eassumption.
Qed.

Lemma traversals_keep_pos_and_flags_witness :
  (pos (mk_rayhit (vec 9 9 9) 1 0 80 true true true) = vec 9 9 9 /\
   implb false true = true /\ implb true true = true /\ implb true true = true) /\
  (pos (mk_rayhit (vec 9 9 9) 1 0 80 true true true) = vec 9 9 9 /\
   implb false true = true /\ implb true true = true /\ implb true true = true).
Proof.
  apply (traversals_keep_pos_and_flags two_tets (vec 1 1 1) (vec 1 1 (-1)) 1
           (vec 9 9 9) (mk_rayhit (vec 9 9 9) 5 6 7 false true true));
    vm_compute; reflexivity.
Defined.

(** ** The targeted traversal without a target in the mesh *)

Lemma target_nowhere_inside m e t nodes :
  mesh_wf m = true -> target_nowhere m e = true ->
  tet_nodes m t = Ok nodes -> inside_target (Some e) nodes = false.
Proof.
  intros W N En.
  assert (V : valid_tet m t = true).
  { unfold tet_nodes in En. apply bind_ok in En. destruct En as (i1 & E1 & _).
    pose proof W as W'. wf_parts W'.
    eapply rd_ok_range; [|exact E1]. assumption. }
  unfold target_nowhere in N. rewrite forallb_forall in N.
  specialize (N t (tet_indices_complete m t V)).
  unfold contains in N. rewrite En in N. cbn [bind] in N.
  cbn [inside_target].
  destruct (IsPointInTetrahedron (at0 nodes) (at1 nodes) (at2 nodes) (at3 nodes) e);
    [discriminate|reflexivity].
Qed.

Lemma walk_body_no_target m rayo rayd e s :
  mesh_wf m = true -> target_nowhere m e = true ->
  walk_body m rayo rayd (Some e) s = walk_body m rayo rayd None s.
Proof.
  intros W N. destruct (hitfound s) eqn:H.
  - now rewrite !walk_body_hit.
  - destruct (walk_body m rayo rayd None s) as [s1|e1] eqn:B.
    + apply walk_body_inv in B; [|exact H].
      destruct B as (findex & adjtets & nodes & nf & nt & c & wl
                     & Ef & Ea & En & Eg & Ec & Ew & ->).
      rewrite (walk_body_eq m rayo rayd (Some e) s findex adjtets nodes nf nt c wl);
        try assumption.
      unfold step_result.
      rewrite (target_nowhere_inside m e (current_tet s) nodes W N En).
      reflexivity.
    + destruct (walk_body m rayo rayd (Some e) s) as [s2|e2] eqn:B2.
      * apply walk_body_inv in B2; [|exact H].
        destruct B2 as (findex & adjtets & nodes & nf & nt & c & wl
                        & Ef & Ea & En & Eg & Ec & Ew & _).
        rewrite (walk_body_eq m rayo rayd None s findex adjtets nodes nf nt c wl)
          in B; try assumption. discriminate.
      * apply walk_body_fault in B. apply walk_body_fault in B2. congruence.
Qed.

(** X10. When no tetrahedron of a well-formed mesh contains the target,
    [traverse_until_point] returns what [traverse_ray] returns. *)
Theorem traverse_until_point_without_target (m : mesh2) (rayo rayd : float4)
    (start : Z) (e : float4) (d : rayhit) :
  mesh_wf m = true -> target_nowhere m e = true ->
  traverse_until_point m rayo rayd start e d = traverse_ray m rayo rayd start d.
Proof.
  intros W N. unfold traverse_until_point, traverse_ray, traverse.
  assert (L : forall fuel s,
             walk_loop fuel m rayo rayd (Some e) s = walk_loop fuel m rayo rayd None s).
  { induction fuel as [|fuel IH]; intros s; [reflexivity|].
    rewrite !walk_loop_S, walk_body_no_target by assumption.
    destruct (depth (hit s) <? 80); [|reflexivity].
    destruct (walk_body m rayo rayd None s); cbn [bind]; [apply IH|reflexivity]. }
  now rewrite L.
Qed.

Lemma traverse_until_point_without_target_witness :
  traverse_until_point two_tets (vec 1 1 1) (vec 1 1 1) 1 (vec 9 9 9)
    (rayhit_init (vec 0 0 0)) =
  traverse_ray two_tets (vec 1 1 1) (vec 1 1 1) 1 (rayhit_init (vec 0 0 0)).
Proof.
  apply (traverse_until_point_without_target two_tets (vec 1 1 1) (vec 1 1 1) 1
           (vec 9 9 9) (rayhit_init (vec 0 0 0))); vm_compute; reflexivity.
Defined.

(** ** The point locator in a well-formed mesh *)

Lemma IsPointInThisTet_contains m p t : IsPointInThisTet m p t = contains m p t.
Proof.
  unfold IsPointInThisTet, contains. destruct (tet_nodes m t) as [v|e]; cbn [bind];
    [|reflexivity].
  destruct (IsPointInTetrahedron (at0 v) (at1 v) (at2 v) (at3 v) p); reflexivity.
Qed.

Lemma locate_from_fault (m : mesh2) (p : float4) :
  mesh_wf m = true ->
  forall fuel i e,
    0 <= i -> (Z.to_nat (tetnum m - i) <= fuel)%nat ->
    locate_from fuel m p i = Fault e ->
    e = MissingReturn /\
    forall j, i <= j < tetnum m -> contains m p j = Ok false.
Proof.
  intros W. induction fuel as [|fuel IH]; intros i e Hi F L; cbn [locate_from] in L;
    destruct (i <? tetnum m) eqn:E.
  - apply Z.ltb_lt in E. lia.
  - apply Z.ltb_ge in E. inversion L. split; [reflexivity|]. intros j Hj. lia.
  - apply Z.ltb_lt in E.
    assert (V : valid_tet m i = true).
    { unfold valid_tet, in_range. apply andb_true_intro.
      split; [apply Z.leb_le|apply Z.ltb_lt]; lia. }
    destruct (wf_tet_nodes m i W V) as (v & En). rewrite En in L. cbn [bind] in L.
    destruct (IsPointInTetrahedron (at0 v) (at1 v) (at2 v) (at3 v) p) eqn:C;
      [discriminate|].
    apply IH in L; [|lia|lia]. destruct L as [-> N]. split; [reflexivity|].
    intros j Hj. destruct (Z.eq_dec j i) as [->|Ne].
    + unfold contains. rewrite En. cbn [bind]. now rewrite C.
    + apply N. lia.
  - apply Z.ltb_ge in E. inversion L. split; [reflexivity|]. intros j Hj. lia.
Qed.

(** X11. In a well-formed mesh the locator either returns the smallest
    index of a tetrahedron that [IsPointInThisTet] accepts for the point, or
    every tetrahedron rejects the point and the function ends without a
    [return]; it never reads outside the mesh. *)
Theorem locator_returns_first_match (m : mesh2) (p : float4) :
  mesh_wf m = true ->
  (exists i, GetTetrahedraFromPoint m p = Ok i /\
             valid_tet m i = true /\
             IsPointInThisTet m p i = Ok true /\
             forall j, 0 <= j < i -> IsPointInThisTet m p j = Ok false) \/
  (GetTetrahedraFromPoint m p = Fault MissingReturn /\
   forall j, 0 <= j < tetnum m -> IsPointInThisTet m p j = Ok false).
Proof.
  intros W. destruct (GetTetrahedraFromPoint m p) as [i|e] eqn:G.
  - left. exists i. split; [reflexivity|].
    apply GetTetrahedraFromPoint_first in G. destruct G as (R & C & Before).
    split; [|split].
    + unfold valid_tet, in_range. apply andb_true_intro.
      split; [apply Z.leb_le|apply Z.ltb_lt]; lia.
    + now rewrite IsPointInThisTet_contains.
    + intros j Hj. rewrite IsPointInThisTet_contains. now apply Before.
  - right. unfold GetTetrahedraFromPoint in G.
    apply (locate_from_fault m p W) in G; [|lia|lia]. destruct G as [-> N].
    split; [reflexivity|]. intros j Hj. rewrite IsPointInThisTet_contains.
    now apply N.
Qed.

Lemma locator_returns_first_match_witness :
  (exists i, GetTetrahedraFromPoint two_tets (vec 1 1 1) = Ok i /\
             valid_tet two_tets i = true /\
             IsPointInThisTet two_tets (vec 1 1 1) i = Ok true /\
             forall j, 0 <= j < i -> IsPointInThisTet two_tets (vec 1 1 1) j = Ok false) \/
  (GetTetrahedraFromPoint two_tets (vec 1 1 1) = Fault MissingReturn /\
   forall j, 0 <= j < tetnum two_tets ->
             IsPointInThisTet two_tets (vec 1 1 1) j = Ok false).
Proof.
  apply (locator_returns_first_match two_tets (vec 1 1 1)). reflexivity.
Defined.

(** ** Order of [float] values *)

Lemma ltb_irrefl (a : float) : (a <? a)%f32 = false.
Proof.
  unfold F32.ltb, SFltb, SFcompare. destruct a as [s|s| |s m e]; try reflexivity.
  - destruct s; reflexivity.
  - rewrite Z.compare_refl, Pos.compare_cont_refl. destruct s; reflexivity.
Qed.

Lemma ltb_not_nan (a b : float) :
  (a <? b)%f32 = true -> is_nan a = false /\ is_nan b = false.
Proof.
  unfold F32.ltb, SFltb, SFcompare.
  destruct a, b; try discriminate; auto.
Qed.

Ltac order_cases :=
  repeat match goal with
         | [ |- context [Z.compare ?a ?b] ] =>
             destruct (Z.compare_spec a b)
         | [ H : context [Z.compare ?a ?b] |- _ ] =>
             destruct (Z.compare_spec a b)
         | [ |- context [Pos.compare ?a ?b] ] =>
             destruct (Pos.compare_spec a b)
         | [ H : context [Pos.compare ?a ?b] |- _ ] =>
             destruct (Pos.compare_spec a b)
         end.

Lemma ltb_trans (a b c : float) :
  (a <? b)%f32 = true -> (b <? c)%f32 = true -> (a <? c)%f32 = true.
Proof.
  unfold F32.ltb, SFltb, SFcompare.
  destruct a as [sa|sa| |sa ma ea], b as [sb|sb| |sb mb eb], c as [sc|sc| |sc mc ec];
    try destruct sa; try destruct sb; try destruct sc;
    try discriminate; try reflexivity;
    intros H1 H2;
    repeat match goal with
           | [ H : context [Pos.compare_cont Eq ?p ?q] |- _ ] =>
               change (Pos.compare_cont Eq p q) with (Pos.compare p q) in H
           | [ |- context [Pos.compare_cont Eq ?p ?q] ] =>
               change (Pos.compare_cont Eq p q) with (Pos.compare p q)
           end;
    order_cases; cbn in *; try discriminate; try reflexivity; try lia.
Qed.

(** ** The corners of the bounding box *)

Lemma rd_In {A : Type} (a : list A) (i : Z) (v : A) : rd a i = Ok v -> In v a.
Proof.
  unfold rd. destruct (i <? 0); [discriminate|].
  destruct (nth_error a (Z.to_nat i)) eqn:N; [|discriminate].
  intros H. inversion H; subst. eapply nth_error_In; exact N.
Qed.

Lemma bounds_axis_start (coords : list float) :
  bounds_axis coords 0 (F32.opp inf) inf.
Proof.
  unfold bounds_axis, corner_values. repeat split; cbn [In]; auto; lia.
Qed.

(** One node more on one axis: the two tests of the loop body. *)
Lemma bounds_axis_step (coords : list float) (i : Z) (mn mx px : float) :
  0 <= i -> rd coords i = Ok px ->
  bounds_axis coords i mn mx ->
  bounds_axis coords (i + 1)
    (if (mn <? px)%f32 then px else mn) (if (mx >? px)%f32 then px else mx).
Proof.
  intros Hi R (Imn & Imx & Nmn & Nmx & B).
  assert (Ipx : In px (corner_values coords))
    by (unfold corner_values; right; right; eapply rd_In; exact R).
  unfold F32.gtb. fold (F32.ltb px mx).
  destruct (mn <? px)%f32 eqn:T1; destruct (px <? mx)%f32 eqn:T2;
    (split; [assumption|]); (split; [assumption|]);
    (split; [try assumption; apply (ltb_not_nan _ _ T1)|]);
    (split; [try assumption; apply (ltb_not_nan _ _ T2)|]);
    intros j v Hj Rj;
    (destruct (Z.eq_dec j i) as [->|Ne];
     [ assert (v = px) by congruence; subst v
     | destruct (B j v ltac:(lia) Rj) as [B1 B2] ]);
    split; try assumption; try apply ltb_irrefl.
  - destruct (px <? v)%f32 eqn:X; [|reflexivity].
    rewrite (ltb_trans _ _ _ T1 X) in B1. discriminate.
  - destruct (v <? px)%f32 eqn:X; [|reflexivity].
    rewrite (ltb_trans _ _ _ X T2) in B2. discriminate.
  - destruct (px <? v)%f32 eqn:X; [|reflexivity].
    rewrite (ltb_trans _ _ _ T1 X) in B1. discriminate.
  - destruct (v <? px)%f32 eqn:X; [|reflexivity].
    rewrite (ltb_trans _ _ _ X T2) in B2. discriminate.
Qed.

Lemma bounds_axis_upto (coords : list float) (i n : Z) (mn mx : float) :
  n <= i -> bounds_axis coords i mn mx -> bounds_axis coords n mn mx.
Proof.
  intros Hn (Imn & Imx & Nmn & Nmx & B). repeat split; try assumption;
    apply (B j v); try assumption; lia.
Qed.

Lemma init_BBox_loop_bounds (m : mesh2) :
  has_len (nodenum m) (n_x m) = true ->
  has_len (nodenum m) (n_y m) = true ->
  has_len (nodenum m) (n_z m) = true ->
  forall fuel i b,
    0 <= i -> (Z.to_nat (nodenum m - i) <= fuel)%nat ->
    bounds_axis (n_x m) i (x (bb_min b)) (x (bb_max b)) ->
    bounds_axis (n_y m) i (y (bb_min b)) (y (bb_max b)) ->
    bounds_axis (n_z m) i (z (bb_min b)) (z (bb_max b)) ->
    exists b',
      init_BBox_loop fuel m i b = Ok b' /\
      w (bb_min b') = w (bb_min b) /\ w (bb_max b') = w (bb_max b) /\
      bounds_axis (n_x m) (nodenum m) (x (bb_min b')) (x (bb_max b')) /\
      bounds_axis (n_y m) (nodenum m) (y (bb_min b')) (y (bb_max b')) /\
      bounds_axis (n_z m) (nodenum m) (z (bb_min b')) (z (bb_max b')).
Proof.
  intros Lx Ly Lz. induction fuel as [|fuel IH]; intros i b Hi F Bx By Bz;
    cbn [init_BBox_loop]; destruct (i <? nodenum m) eqn:E.
  - apply Z.ltb_lt in E. lia.
  - apply Z.ltb_ge in E. exists b.
    split; [reflexivity|]. split; [reflexivity|]. split; [reflexivity|].
    split; [|split]; (eapply bounds_axis_upto; [|eassumption]; lia).
  - apply Z.ltb_lt in E.
    assert (R : in_range 0 (nodenum m) i = true).
    { unfold in_range. apply andb_true_intro.
      split; [apply Z.leb_le|apply Z.ltb_lt]; lia. }
    destruct (rd_in_range _ _ _ Lx R) as (px & Rx).
    destruct (rd_in_range _ _ _ Ly R) as (py & Ry).
    destruct (rd_in_range _ _ _ Lz R) as (pz & Rz).
    rewrite Rx, Ry, Rz. cbn [bind].
    destruct (IH (i + 1) (bbox_update b px py pz)) as (b' & L & Wn & Wx & X & Y & Z');
      try lia;
      try (unfold bbox_update; cbn [bb_min bb_max x y z];
           now apply bounds_axis_step).
    exists b'. split; [exact L|]. cbn in Wn, Wx. auto.
  - apply Z.ltb_ge in E. exists b.
    split; [reflexivity|]. split; [reflexivity|]. split; [reflexivity|].
    split; [|split]; (eapply bounds_axis_upto; [|eassumption]; lia).
Qed.

(** X12. [init_BBox] returns its corners the wrong way round for every
    mesh: on each axis no node coordinate is above the corner called [min]
    and none is below the corner called [max]. Each corner component is a
    node coordinate or one of the initial values -1e20 and 1e20, and is
    never NaN; a NaN coordinate fails both tests and is skipped. *)
Theorem init_BBox_keeps_largest_in_min (m : mesh2) :
  has_len (nodenum m) (n_x m) = true ->
  has_len (nodenum m) (n_y m) = true ->
  has_len (nodenum m) (n_z m) = true ->
  exists b,
    init_BBox m = Ok b /\
    w (bb_min b) = F32.zero /\ w (bb_max b) = F32.zero /\
    bounds_axis (n_x m) (nodenum m) (x (bb_min b)) (x (bb_max b)) /\
    bounds_axis (n_y m) (nodenum m) (y (bb_min b)) (y (bb_max b)) /\
    bounds_axis (n_z m) (nodenum m) (z (bb_min b)) (z (bb_max b)).
Proof.
  intros Lx Ly Lz. unfold init_BBox.
  apply (init_BBox_loop_bounds m Lx Ly Lz); try lia; apply bounds_axis_start.
Qed.

Lemma init_BBox_keeps_largest_in_min_witness :
  exists b,
    init_BBox two_tets = Ok b /\
    w (bb_min b) = F32.zero /\ w (bb_max b) = F32.zero /\
    bounds_axis (n_x two_tets) 5 (x (bb_min b)) (x (bb_max b)) /\
    bounds_axis (n_y two_tets) 5 (y (bb_min b)) (y (bb_max b)) /\
    bounds_axis (n_z two_tets) 5 (z (bb_min b)) (z (bb_max b)).
Proof.
  apply (init_BBox_keeps_largest_in_min two_tets); reflexivity.
Defined.

(** ** [ConstrainToBBox] *)

Lemma of_float_nan (c : float) : is_nan c = true -> F64.of_float c = S754_nan.
Proof. destruct c; try discriminate; reflexivity. Qed.

Lemma above_low_not_nan (lo c : float) :
  above_low lo c = true -> is_nan lo = false /\ is_nan c = false.
Proof.
  unfold above_low. intros T. split.
  - destruct (is_nan lo) eqn:N; [|reflexivity].
    rewrite (of_float_nan lo N) in T. discriminate.
  - destruct (is_nan c) eqn:N; [|reflexivity].
    rewrite (of_float_nan c N) in T.
    unfold F64.ltb, SFltb, SFcompare in T.
    destruct (F64.add (F64.of_float lo) F64.d0_2); discriminate.
Qed.

Lemma below_high_not_nan (hi c : float) :
  below_high hi c = true -> is_nan hi = false /\ is_nan c = false.
Proof.
  unfold below_high. intros T. split.
  - destruct (is_nan hi) eqn:N; [|reflexivity].
    rewrite (of_float_nan hi N) in T.
    unfold F64.gtb, SFltb, SFcompare in T.
    destruct (F64.of_float c); discriminate.
  - destruct (is_nan c) eqn:N; [|reflexivity].
    rewrite (of_float_nan c N) in T. discriminate.
Qed.

Lemma constrain_axis_tests (lo hi c : float) :
  constrain_axis lo hi c =
    if above_low lo c
    then if below_high hi lo then hi else lo
    else if below_high hi c then hi else c.
Proof.
  unfold constrain_axis. fold (above_low lo c).
  destruct (above_low lo c).
  - fold (below_high hi lo). reflexivity.
  - fold (below_high hi c). reflexivity.
Qed.

Lemma constrain_axis_nan (lo hi c : float) :
  is_nan (constrain_axis lo hi c) = is_nan c /\
  (constrain_axis lo hi c = c \/ constrain_axis lo hi c = lo \/
   constrain_axis lo hi c = hi).
Proof.
  rewrite constrain_axis_tests.
  destruct (above_low lo c) eqn:T1.
  - destruct (above_low_not_nan lo c T1) as [Nlo Nc].
    destruct (below_high hi lo) eqn:T2.
    + destruct (below_high_not_nan hi lo T2) as [Nhi _]. split; [congruence|auto].
    + split; [congruence|auto].
  - destruct (below_high hi c) eqn:T2.
    + destruct (below_high_not_nan hi c T2) as [Nhi Nc]. split; [congruence|auto].
    + auto.
Qed.

(** X13. [ConstrainToBBox] replaces a coordinate by the same coordinate
    of a corner or leaves it; it neither produces nor removes a NaN, and it
    leaves the [w] component alone. *)
Theorem ConstrainToBBox_coordinates (b : BBox) (p : float4) :
  w (ConstrainToBBox b p) = w p /\
  is_nan (x (ConstrainToBBox b p)) = is_nan (x p) /\
  is_nan (y (ConstrainToBBox b p)) = is_nan (y p) /\
  is_nan (z (ConstrainToBBox b p)) = is_nan (z p) /\
  (x (ConstrainToBBox b p) = x p \/ x (ConstrainToBBox b p) = x (bb_min b) \/
   x (ConstrainToBBox b p) = x (bb_max b)) /\
  (y (ConstrainToBBox b p) = y p \/ y (ConstrainToBBox b p) = y (bb_min b) \/
   y (ConstrainToBBox b p) = y (bb_max b)) /\
  (z (ConstrainToBBox b p) = z p \/ z (ConstrainToBBox b p) = z (bb_min b) \/
   z (ConstrainToBBox b p) = z (bb_max b)).
Proof.
  unfold ConstrainToBBox. cbn [x y z w].
  destruct (constrain_axis_nan (x (bb_min b)) (x (bb_max b)) (x p)) as [Nx Mx].
  destruct (constrain_axis_nan (y (bb_min b)) (y (bb_max b)) (y p)) as [Ny My].
  destruct (constrain_axis_nan (z (bb_min b)) (z (bb_max b)) (z p)) as [Nz Mz].
  auto 10.
Qed.

(** X14. In a box that is more than 0.2 wide on every axis (the test of
    the upper corner holds for the lower corner), [ConstrainToBBox] never
    moves a coordinate to the [min] corner: a coordinate that passes one of
    the two tests is set to the coordinate of [max], and any other is left
    as it is. *)
Theorem ConstrainToBBox_moves_to_max (b : BBox) (p : float4) :
  below_high (x (bb_max b)) (x (bb_min b)) = true ->
  below_high (y (bb_max b)) (y (bb_min b)) = true ->
  below_high (z (bb_max b)) (z (bb_min b)) = true ->
  ConstrainToBBox b p =
    make_float4
      (if above_low (x (bb_min b)) (x p) || below_high (x (bb_max b)) (x p)
       then x (bb_max b) else x p)
      (if above_low (y (bb_min b)) (y p) || below_high (y (bb_max b)) (y p)
       then y (bb_max b) else y p)
      (if above_low (z (bb_min b)) (z p) || below_high (z (bb_max b)) (z p)
       then z (bb_max b) else z p)
      (w p).
Proof.
  intros Hx Hy Hz. unfold ConstrainToBBox.
  rewrite !constrain_axis_tests, Hx, Hy, Hz.
  destruct (above_low (x (bb_min b)) (x p)), (above_low (y (bb_min b)) (y p)),
           (above_low (z (bb_min b)) (z p)); reflexivity.
Qed.

Lemma ConstrainToBBox_moves_to_max_witness :
  ConstrainToBBox (mk_BBox (vec 0 0 0) (vec 1 1 1))
    (make_float4 (F32.of_ratio 1 2) (F32.of_Z 5) (F32.of_Z (-5)) F32.zero)
  = vec 1 1 1.
Proof.
  refine (ConstrainToBBox_moves_to_max (mk_BBox (vec 0 0 0) (vec 1 1 1))
            (make_float4 (F32.of_ratio 1 2) (F32.of_Z 5) (F32.of_Z (-5)) F32.zero)
            _ _ _); vm_compute; reflexivity.
Defined.

(** ** [normalize] *)

(** X15. When the sum of the three squares is zero, for the zero vector
    and for a vector whose squares underflow, [normalize] divides by zero:
    no component of the result is a finite number. *)
Theorem normalize_zero_length (a : float4) :
  is_zero (x a * x a + y a * y a + z a * z a)%f32 = true ->
  not_finite (x (normalize a)) = true /\
  not_finite (y (normalize a)) = true /\
  not_finite (z (normalize a)) = true.
Proof.
  unfold normalize. cbn [x y z].
  destruct (x a * x a + y a * y a + z a * z a)%f32 as [s| | |]; try discriminate.
  intros _.
  assert (F : f32_div (F32.of_Z 1) (f32_sqrt (S754_zero s)) = S754_infinity s)
    by (destruct s; reflexivity).
  rewrite F.
  repeat split;
    match goal with
    | [ |- not_finite (?c * _)%f32 = true ] => destruct c; reflexivity
    end.
Qed.

Lemma normalize_zero_length_witness :
  not_finite (x (normalize (vec 0 0 0))) = true /\
  not_finite (y (normalize (vec 0 0 0))) = true /\
  not_finite (z (normalize (vec 0 0 0))) = true.
Proof.
  apply (normalize_zero_length (vec 0 0 0)). reflexivity.
Defined.

(** ** A stop in the first pass *)

Lemma traverse_first_pass_stop m rayo rayd target start d findex adjtets nodes
    nf nt c wl :
  tet_findex m start = Ok findex ->
  tet_adjtets m start = Ok adjtets ->
  tet_nodes m start = Ok nodes ->
  GetExitTet rayo rayd nodes findex adjtets 0 = (nf, nt) ->
  rd (face_is_constrained m) nf = Ok c ->
  rd (face_is_wall m) nf = Ok wl ->
  inside_target target nodes || c || wl || out_of_mesh nt nf = true ->
  traverse m rayo rayd target start d =
    Ok (mk_rayhit (pos d) start nf 80 (wall d || wl || out_of_mesh nt nf)
          (constrained d || c) (dark d)).
Proof.
  intros Ef Ea En Eg Ec Ew Stop.
  assert (B : walk_body m rayo rayd target (walk_start start d)
              = Ok (step_result target (walk_start start d) nodes nf nt c wl))
    by (apply walk_body_eq with (findex := findex) (adjtets := adjtets);
        try assumption; reflexivity).
  unfold traverse. change 80%nat with (S 79).
  rewrite walk_loop_S. change (depth (hit (walk_start start d)) <? 80) with true.
  cbv iota. rewrite B. cbn [bind].
  rewrite walk_loop_fixed.
  - cbn [bind]. unfold walk_finish, with_depth, incr_depth, step_result.
    cbn [hitfound hit set_depth pos tet face depth wall constrained dark
         current_tet walk_start].
    rewrite Stop. reflexivity.
  - apply walk_body_hit. unfold incr_depth, step_result. cbn [hitfound]. exact Stop.
  - unfold step_result, incr_depth, walk_start. cbn [hit set_depth depth]. lia.
  - unfold step_result, incr_depth, walk_start. cbn [hit set_depth depth]. lia.
Qed.

Lemma exit_of_reads m rayo rayd t lf nf nt :
  exit_of m rayo rayd t lf = Ok (nf, nt) ->
  exists findex adjtets nodes,
    tet_findex m t = Ok findex /\ tet_adjtets m t = Ok adjtets /\
    tet_nodes m t = Ok nodes /\
    GetExitTet rayo rayd nodes findex adjtets lf = (nf, nt).
Proof.
  unfold exit_of. intros H.
  apply bind_ok in H. destruct H as (findex & Ef & H).
  apply bind_ok in H. destruct H as (adjtets & Ea & H).
  apply bind_ok in H. destruct H as (nodes & En & H).
  inversion H. eauto 10.
Qed.

(** X21. A ray whose exit from the start tetrahedron is a stop reports
    that exit: when the face resolved in the start tetrahedron is
    constrained or a wall, or there is no tetrahedron behind it,
    [traverse_ray] returns the start tetrahedron and that face, with
    [constrained] set for a constrained face and [wall] set for a wall or a
    missing neighbour. *)
Theorem traverse_ray_stops_at_first_exit (m : mesh2) (rayo rayd : float4)
    (start : Z) (d : rayhit) (nf nt : Z) (c wl : bool) :
  exit_of m rayo rayd start 0 = Ok (nf, nt) ->
  rd (face_is_constrained m) nf = Ok c ->
  rd (face_is_wall m) nf = Ok wl ->
  c || wl || out_of_mesh nt nf = true ->
  traverse_ray m rayo rayd start d =
    Ok (mk_rayhit (pos d) start nf 80 (wall d || wl || out_of_mesh nt nf)
          (constrained d || c) (dark d)).
Proof.
  intros Ex Ec Ew Stop.
  destruct (exit_of_reads _ _ _ _ _ _ _ Ex) as (findex & adjtets & nodes & Ef & Ea & En & Eg).
  unfold traverse_ray.
  apply traverse_first_pass_stop with (findex := findex) (adjtets := adjtets)
                                      (nodes := nodes); assumption.
Qed.

Lemma traverse_ray_stops_at_first_exit_witness :
  traverse_ray unit_tet origin_0_1 (vec 1 1 1) 0 (rayhit_init (vec 0 0 0)) =
    Ok (mk_rayhit (vec 0 0 0) 0 0 80 (false || true || out_of_mesh (-1) 0)
          (false || false) false).
Proof.
  apply (traverse_ray_stops_at_first_exit unit_tet origin_0_1 (vec 1 1 1) 0
           (rayhit_init (vec 0 0 0)) 0 (-1) false true);
    vm_compute; reflexivity.
Defined.

(** X22. The locator and the targeted traversal agree: in a well-formed
    mesh, [traverse_until_point] started in the tetrahedron that
    [GetTetrahedraFromPoint] returns for the target stops there in its
    first pass and names that tetrahedron, without setting [dark]. *)
Theorem located_target_stops_traversal (m : mesh2) (rayo rayd : float4)
    (e : float4) (i : Z) (d : rayhit) :
  mesh_wf m = true ->
  GetTetrahedraFromPoint m e = Ok i ->
  exists d', traverse_until_point m rayo rayd i e d = Ok d' /\
             tet d' = i /\ depth d' = 80 /\ dark d' = dark d /\ pos d' = pos d.
Proof.
  intros W G. apply GetTetrahedraFromPoint_first in G. destruct G as (R & C & _).
  assert (V : valid_tet m i = true).
  { unfold valid_tet, in_range. apply andb_true_intro.
    split; [apply Z.leb_le|apply Z.ltb_lt]; lia. }
  destruct (wf_exit_of m rayo rayd i 0 W V)
    as (findex & adjtets & nodes & nf & nt & Ef & Ea & En & Eg & Rf & _).
  destruct (wf_face_flags m nf W Rf) as (c & wl & Ec & Ew).
  unfold contains in C. rewrite En in C. cbn [bind] in C.
  assert (In : inside_target (Some e) nodes = true) by (cbn; congruence).
  eexists. split.
  - unfold traverse_until_point.
    apply traverse_first_pass_stop with (findex := findex) (adjtets := adjtets)
                                        (nodes := nodes) (c := c) (wl := wl);
      try eassumption.
    rewrite In. reflexivity.
  - cbn. auto.
Qed.

Lemma located_target_stops_traversal_witness :
  exists d', traverse_until_point two_tets (vec 0 0 1) (vec 1 1 1) 0 (vec 3 3 3)
               (rayhit_init (vec 0 0 0)) = Ok d' /\
             tet d' = 0 /\ depth d' = 80 /\ dark d' = false /\ pos d' = vec 0 0 0.
Proof.
  apply (located_target_stops_traversal two_tets (vec 0 0 1) (vec 1 1 1) (vec 3 3 3) 0
           (rayhit_init (vec 0 0 0))); vm_compute; reflexivity.
Defined.

(** ** The loaders *)

Import Loader.

Lemma lbind_done {A B : Type} (c : loaded A) (k : A -> loaded B) (b : B) :
  lbind c k = Done b -> exists a, c = Done a /\ k a = Done b.
Proof. destruct c; cbn; [eauto|discriminate|discriminate]. Qed.

Lemma upd_length {A : Type} (f : A -> A) :
  forall (l : list A) k l', upd l k f = Some l' -> length l' = length l.
Proof.
  induction l as [|a r IH]; intros k l' U; cbn in U; [discriminate|].
  destruct k as [|k].
  - inversion U. reflexivity.
  - destruct (upd r k f) as [r'|] eqn:E; [|discriminate]. inversion U.
    cbn. f_equal. eapply IH. exact E.
Qed.

Lemma upd_some {A : Type} (f : A -> A) :
  forall (l : list A) k, (k < length l)%nat -> exists l', upd l k f = Some l'.
Proof.
  induction l as [|a r IH]; intros k Hk; cbn in Hk; [lia|].
  destruct k as [|k]; cbn; [eauto|].
  destruct (IH k) as (r' & E); [lia|]. rewrite E. eauto.
Qed.

Lemma upd_none {A : Type} (f : A -> A) :
  forall (l : list A) k, (length l <= k)%nat -> upd l k f = None.
Proof.
  induction l as [|a r IH]; intros k Hk; [reflexivity|].
  destruct k as [|k]; cbn in *; [lia|]. rewrite IH by lia. reflexivity.
Qed.

Lemma upd_nth {A : Type} (f : A -> A) :
  forall (l : list A) k l' j,
    upd l k f = Some l' ->
    nth_error l' j = if Nat.eqb j k then option_map f (nth_error l j)
                     else nth_error l j.
Proof.
  induction l as [|a r IH]; intros k l' j U; cbn in U; [discriminate|].
  destruct k as [|k].
  - inversion U. destruct j; reflexivity.
  - destruct (upd r k f) as [r'|] eqn:E; [|discriminate]. inversion U.
    destruct j as [|j]; [reflexivity|]. cbn. eapply IH. exact E.
Qed.

Lemma upd_upd {A : Type} (f g : A -> A) :
  forall (l : list A) k l1 l2,
    upd l k f = Some l1 -> upd l1 k g = Some l2 ->
    upd l k (fun a => g (f a)) = Some l2.
Proof.
  induction l as [|a r IH]; intros k l1 l2 U1 U2; cbn in U1; [discriminate|].
  destruct k as [|k].
  - inversion U1; subst. cbn in U2. exact U2.
  - destruct (upd r k f) as [r1|] eqn:E1; [|discriminate]. inversion U1; subst.
    cbn in U2. destruct (upd r1 k g) as [r2|] eqn:E2; [|discriminate].
    inversion U2; subst. cbn. rewrite (IH k r1 r2 E1 E2). reflexivity.
Qed.

Lemma upd_Forall {A : Type} (P : A -> Prop) (f : A -> A) :
  (forall a, P a -> P (f a)) ->
  forall (l : list A) k l', Forall P l -> upd l k f = Some l' -> Forall P l'.
Proof.
  intros Pf. induction l as [|a r IH]; intros k l' F U; cbn in U; [discriminate|].
  inversion F; subst. destruct k as [|k].
  - inversion U. constructor; auto.
  - destruct (upd r k f) as [r'|] eqn:E; [|discriminate]. inversion U.
    constructor; [assumption|]. eapply IH; eassumption.
Qed.

Lemma deque_set_done {A : Type} (q : list A) (i : Z) (f : A -> A) (q' : list A) :
  deque_set q i f = Done q' -> 0 <= i /\ upd q (Z.to_nat i) f = Some q'.
Proof.
  unfold deque_set. destruct (i <? 0) eqn:E; [discriminate|].
  apply Z.ltb_ge in E. destruct (upd q (Z.to_nat i) f); [|discriminate].
  intros H. inversion H. auto.
Qed.

Lemma deque_set_accepted {A : Type} (q : list A) (i : Z) (f : A -> A) :
  accepted (deque_set q i f) = (0 <=? i) && (i <? Z.of_nat (length q)).
Proof.
  unfold deque_set. destruct (i <? 0) eqn:E.
  - apply Z.ltb_lt in E. destruct (0 <=? i) eqn:E0; [apply Z.leb_le in E0; lia|].
    reflexivity.
  - apply Z.ltb_ge in E. replace (0 <=? i) with true by (symmetry; now apply Z.leb_le).
    cbn [andb]. destruct (i <? Z.of_nat (length q)) eqn:E1.
    + apply Z.ltb_lt in E1. destruct (upd_some f q (Z.to_nat i)) as (q' & U); [lia|].
      now rewrite U.
    + apply Z.ltb_ge in E1. rewrite upd_none by lia. reflexivity.
Qed.

Lemma resize_length {A : Type} (n : Z) (v : A) (q : list A) :
  length (resize n v q) = Z.to_nat n.
Proof.
  unfold resize. rewrite length_app, length_firstn, repeat_length. lia.
Qed.

Lemma firstn_incl {A : Type} (n : nat) (l : list A) (a : A) :
  In a (firstn n l) -> In a l.
Proof.
  intros H. rewrite <- (firstn_skipn n l). apply in_or_app. now left.
Qed.

Lemma resize_Forall {A : Type} (P : A -> Prop) (n : Z) (v : A) (q : list A) :
  P v -> Forall P q -> Forall P (resize n v q).
Proof.
  intros Pv F. unfold resize. apply Forall_app. split.
  - apply Forall_forall. intros a Ha. rewrite Forall_forall in F.
    apply F. eapply firstn_incl. exact Ha.
  - apply Forall_forall. intros a Ha. apply repeat_spec in Ha. now subst.
Qed.

(** A property kept by every line from the line numbered [lo] on holds
    after the loop. *)
Lemma read_lines_inv (P : tetrahedra_mesh -> Prop)
    (line : Z -> list Z -> tetrahedra_mesh -> loaded tetrahedra_mesh)
    (lo : Z) (all : list (list Z)) :
  (forall num ints m m', lo <= num -> In ints all -> P m ->
                         line num ints m = Done m' -> P m') ->
  forall lines, incl lines all ->
  forall num m m' n, lo <= num -> P m ->
                     read_lines line lines num m = Done (m', n) -> P m'.
Proof.
  intros Step. induction lines as [|ints rest IH]; intros Inc num m m' n L Pm R;
    cbn [read_lines] in R.
  - inversion R; subst. exact Pm.
  - destruct (num <? max m); [|inversion R; subst; exact Pm].
    apply lbind_done in R. destruct R as (m1 & Ln & R).
    eapply IH; [|  |  |exact R].
    + intros x Hx. apply Inc. now right.
    + lia.
    + eapply Step; [exact L| |exact Pm|exact Ln]. apply Inc. now left.
Qed.

Ltac line_inv H :=
  repeat match type of H with
         | (if ?b then _ else _) = Done _ => destruct b eqn:?
         | lbind _ _ = Done _ =>
             let E := fresh "E" in
             apply lbind_done in H; destruct H as (? & E & H)
         | Raised = Done _ => discriminate H
         | Overflowed = Done _ => discriminate H
         end.

Ltac sets_done :=
  repeat match goal with
         | [ E : deque_set _ _ _ = Done _ |- _ ] =>
             apply deque_set_done in E; destruct E as [? E]
         end.

Lemma ele_line_keeps num ints m m' :
  ele_line num ints m = Done m' ->
  max m' = max m /\
  (1 <= num -> tetnum m' = tetnum m /\
               length (tetrahedras m') = length (tetrahedras m)).
Proof.
  unfold ele_line. intros H. line_inv H; inversion H; subst; cbn;
    (split; [reflexivity|]); intros N;
    try (apply Z.eqb_eq in Heqb; lia); try (split; reflexivity).
  sets_done. split; [reflexivity|].
  erewrite upd_length by eassumption. eapply upd_length; eassumption.
Qed.

Lemma neigh_line_keeps num ints m m' :
  neigh_line num ints m = Done m' -> max m' = max m.
Proof. unfold neigh_line. intros H. line_inv H; inversion H; subst; reflexivity. Qed.

Lemma t2f_line_keeps num ints m m' :
  t2f_line num ints m = Done m' -> max m' = max m.
Proof. unfold t2f_line. intros H. line_inv H; inversion H; subst; reflexivity. Qed.

Lemma face_flag_step (q : list face) (i c5 : Z) (ints : list Z) (q' : list face) :
  (if c5 =? -1 then deque_set q i set_wall
   else c6 <~ vec_at ints 6 ;;
        if c6 =? -1 then deque_set q i set_wall
        else c4 <~ vec_at ints 4 ;;
             if c4 =? -1 then deque_set q i set_constrained
             else Done q) = Done q' ->
  q' = q \/ (0 <= i /\ upd q (Z.to_nat i) set_wall = Some q') \/
  (0 <= i /\ upd q (Z.to_nat i) set_constrained = Some q').
Proof.
  intros H. line_inv H; try (apply deque_set_done in H; tauto).
  inversion H. auto.
Qed.

Lemma face_line_keeps num ints m m' :
  face_line num ints m = Done m' ->
  max m' = max m /\
  (1 <= num -> facenum m' = facenum m /\ length (faces m') = length (faces m)).
Proof.
  unfold face_line. intros H. line_inv H; inversion H; subst; cbn;
    (split; [reflexivity|]); intros N;
    try (apply Z.eqb_eq in Heqb; lia); try (split; reflexivity).
  split; [reflexivity|].
  match goal with
  | [ E : (if _ then _ else _) = Done _ |- _ ] => apply face_flag_step in E;
      destruct E as [->|[[_ E]|[_ E]]]
  end; sets_done;
    repeat (erewrite upd_length by eassumption); reflexivity.
Qed.

Lemma edge_line_keeps num ints m m' :
  edge_line num ints m = Done m' ->
  max m' = max m /\
  (1 <= num -> edgenum m' = edgenum m /\ length (edges m') = length (edges m)).
Proof.
  unfold edge_line. intros H. line_inv H; inversion H; subst; cbn;
    (split; [reflexivity|]); intros N;
    try (apply Z.eqb_eq in Heqb; lia); try (split; reflexivity).
  sets_done. split; [reflexivity|].
  repeat (erewrite upd_length by eassumption). reflexivity.
Qed.

(** Lines after the first [max] are not processed. *)
Lemma read_lines_firstn
    (line : Z -> list Z -> tetrahedra_mesh -> loaded tetrahedra_mesh) :
  (forall num ints m m', line num ints m = Done m' -> max m' = max m) ->
  forall lines num m,
    num <= max m ->
    read_lines line lines num m =
      read_lines line (firstn (Z.to_nat (max m - num)) lines) num m.
Proof.
  intros K. induction lines as [|ints rest IH]; intros num m Hn.
  - now rewrite firstn_nil.
  - cbn [read_lines]. destruct (num <? max m) eqn:E.
    + apply Z.ltb_lt in E.
      replace (Z.to_nat (max m - num)) with (S (Z.to_nat (max m - (num + 1)))) by lia.
      cbn [firstn read_lines].
      replace (num <? max m) with true by (symmetry; now apply Z.ltb_lt).
      destruct (line num ints m) as [m1| |] eqn:L; cbn [lbind]; try reflexivity.
      rewrite <- (K _ _ _ _ L). apply IH. rewrite (K _ _ _ _ L). lia.
    + apply Z.ltb_ge in E. replace (max m - num) with 0 by lia. reflexivity.
Qed.

Lemma read_lines_count
    (line : Z -> list Z -> tetrahedra_mesh -> loaded tetrahedra_mesh) :
  (forall num ints m m', line num ints m = Done m' -> max m' = max m) ->
  forall lines num m m' n,
    num <= max m ->
    read_lines line lines num m = Done (m', n) ->
    n = Z.min (num + Z.of_nat (length lines)) (max m) /\ max m' = max m.
Proof.
  intros K. induction lines as [|ints rest IH]; intros num m m' n Hn R;
    cbn [read_lines] in R.
  - inversion R; subst. cbn. split; [lia|reflexivity].
  - destruct (num <? max m) eqn:E.
    + apply Z.ltb_lt in E. apply lbind_done in R. destruct R as (m1 & L & R).
      pose proof (K _ _ _ _ L) as Km.
      apply IH in R; [|lia]. destruct R as [-> ->]. rewrite Km.
      cbn [length]. split; [lia|reflexivity].
    + apply Z.ltb_ge in E. inversion R; subst. cbn [length].
      split; [lia|reflexivity].
Qed.

(** X16. Every loader stops after [max] lines: the lines behind the first
    [max] of the file have no effect on the result, whether the load ends
    or throws, and the count of lines it reports is the smaller of the
    number of lines and [max]. *)
Theorem loaders_read_at_most_max_lines
    (line : Z -> list Z -> tetrahedra_mesh -> loaded tetrahedra_mesh)
    (lines : list (list Z)) (m : tetrahedra_mesh) :
  In line [ele_line; neigh_line; t2f_line; face_line; edge_line] ->
  0 <= max m ->
  load line (Some lines) m = load line (Some (firstn (Z.to_nat (max m)) lines)) m /\
  forall m' n, load line (Some lines) m = Done (m', n) ->
               n = Z.min (Z.of_nat (length lines)) (max m) /\ max m' = max m.
Proof.
  intros Hl Hm.
  assert (K : forall num ints m0 m', line num ints m0 = Done m' -> max m' = max m0).
  { cbn [In] in Hl. destruct Hl as [<-|[<-|[<-|[<-|[<-|[]]]]]]; intros num ints m0 m' L.
    - now apply ele_line_keeps in L.
    - now apply neigh_line_keeps in L.
    - now apply t2f_line_keeps in L.
    - now apply face_line_keeps in L.
    - now apply edge_line_keeps in L. }
  unfold load. split.
  - rewrite (read_lines_firstn line K lines 0 m Hm). now rewrite Z.sub_0_r.
  - intros m' n R. apply (read_lines_count line K) in R; [|exact Hm].
    now rewrite Z.add_0_l in R.
Qed.

Lemma loaders_read_at_most_max_lines_witness :
  load edge_line (Some [[2]; [0; 7; 8]; [1; 9; 10]]) (fresh 0 0 0 2) =
    load edge_line (Some (firstn (Z.to_nat 2) [[2]; [0; 7; 8]; [1; 9; 10]]))
      (fresh 0 0 0 2) /\
  forall m' n, load edge_line (Some [[2]; [0; 7; 8]; [1; 9; 10]]) (fresh 0 0 0 2)
               = Done (m', n) ->
               n = Z.min (Z.of_nat 3) 2 /\ max m' = 2.
Proof.
  apply (loaders_read_at_most_max_lines edge_line [[2]; [0; 7; 8]; [1; 9; 10]]
           (fresh 0 0 0 2)).
  - right; right; right; right; left; reflexivity.
  - simpl. lia.
Defined.

Lemma vec_at_0 (i : Z) (t : list Z) (v : Z) : vec_at (i :: t) 0 = Done v -> v = i.
Proof. cbn. intros H. now inversion H. Qed.

Lemma vec_at_rows (ints : list Z) (i a b : Z) :
  vec_at ints 0 = Done i -> vec_at ints 1 = Done a -> vec_at ints 2 = Done b ->
  exists rest, ints = i :: a :: b :: rest.
Proof.
  unfold vec_at. destruct ints as [|x [|y [|z r]]]; cbn; try discriminate.
  intros H0 H1 H2. inversion H0; inversion H1; inversion H2; subst. eauto.
Qed.

(** X17. [load_tet_edge] never assigns the second endpoint of an edge and
    writes both columns of a row to the first: after a load every edge has
    [node2] unassigned, and [node1] unassigned or equal to the third column
    of a row of the file. *)
Theorem load_tet_edge_loses_an_endpoint (lines : list (list Z))
    (m m' : tetrahedra_mesh) (n : Z) :
  Forall (edge_as_loaded lines) (edges m) ->
  load_tet_edge (Some lines) m = Done (m', n) ->
  Forall (edge_as_loaded lines) (edges m').
Proof.
  intros F R. unfold load_tet_edge, load in R.
  apply (read_lines_inv (fun m => Forall (edge_as_loaded lines) (edges m))
           edge_line 0 lines) with (lines := lines) (num := 0) (m := m) (n := n);
    try assumption; try lia; [|apply incl_refl].
  clear. intros num ints m m' _ Hin P L. unfold edge_line in L.
  destruct (num =? 0).
  - line_inv L. inversion L; subst. cbn [edges set_edges].
    apply resize_Forall; [|exact P]. split; [reflexivity|now left].
  - destruct (negb (Nat.eqb (length ints) 0)); [|inversion L; subst; exact P].
    apply lbind_done in L. destruct L as (i & Ei & L).
    apply lbind_done in L. destruct L as (q1 & U1 & L).
    apply lbind_done in L. destruct L as (v1 & Ev1 & L).
    apply lbind_done in L. destruct L as (q2 & U2 & L).
    apply lbind_done in L. destruct L as (v2 & Ev2 & L).
    apply lbind_done in L. destruct L as (q3 & U3 & L).
    inversion L; subst. cbn [edges set_edges].
    apply deque_set_done in U1, U2, U3.
    destruct U1 as [_ U1]. destruct U2 as [_ U2]. destruct U3 as [_ U3].
    pose proof (upd_upd _ _ _ _ _ _ (upd_upd _ _ _ _ _ _ U1 U2) U3) as U.
    destruct (vec_at_rows ints _ _ _ Ei Ev1 Ev2) as (rest & ->).
    eapply upd_Forall; [|exact P|exact U].
    intros e [N2 _]. split; [exact N2|]. right. cbn. eauto 10.
Qed.

Lemma load_tet_edge_loses_an_endpoint_witness :
  Forall (edge_as_loaded [[2]; [0; 7; 8]; [1; 9; 10]])
    [mk_edge (Some 0) (Some 8) None; mk_edge (Some 1) (Some 10) None].
Proof.
  apply (load_tet_edge_loses_an_endpoint [[2]; [0; 7; 8]; [1; 9; 10]]
           (fresh 0 0 0 1000000000)
           (mk_tetrahedra_mesh 0 0 2 [] []
              [mk_edge (Some 0) (Some 8) None; mk_edge (Some 1) (Some 10) None]
              1000000000) 3).
  - constructor.
  - vm_compute. reflexivity.
Defined.

(** What a row of the face file does to the collection of faces: the
    record of its first column is rewritten, and gets at most one flag when
    it had none. *)
Lemma face_line_row (num i : Z) (t : list Z) (m m' : tetrahedra_mesh) :
  1 <= num ->
  face_line num (i :: t) m = Done m' ->
  max m' = max m /\
  exists g, 0 <= i /\ upd (faces m) (Z.to_nat i) g = Some (faces m') /\
            forall f, unflagged f -> both_flags (g f) = false.
Proof.
  intros N L. split; [now apply face_line_keeps in L|].
  unfold face_line in L.
  destruct (num =? 0) eqn:E0; [apply Z.eqb_eq in E0; lia|].
  cbn [length Nat.eqb negb] in L.
  apply lbind_done in L. destruct L as (i' & Ei & L).
  apply vec_at_0 in Ei. subst i'.
  apply lbind_done in L. destruct L as (a & _ & L).
  apply lbind_done in L. destruct L as (b & _ & L).
  apply lbind_done in L. destruct L as (c & _ & L).
  apply lbind_done in L. destruct L as (q1 & U1 & L).
  apply lbind_done in L. destruct L as (c5 & _ & L).
  apply lbind_done in L. destruct L as (q2 & U2 & L).
  inversion L; subst. cbn [faces set_faces].
  apply deque_set_done in U1. destruct U1 as [Hi U1].
  apply face_flag_step in U2. destruct U2 as [->|[[_ U2]|[_ U2]]].
  - exists (set_face_nodes i a b c). repeat split; try assumption.
    intros f [Fc Fw]. unfold both_flags. cbn. now rewrite Fc.
  - exists (fun f => set_wall (set_face_nodes i a b c f)).
    split; [exact Hi|]. split; [exact (upd_upd _ _ _ _ _ _ U1 U2)|].
    intros f [Fc Fw]. unfold both_flags. cbn. now rewrite Fc.
  - exists (fun f => set_constrained (set_face_nodes i a b c f)).
    split; [exact Hi|]. split; [exact (upd_upd _ _ _ _ _ _ U1 U2)|].
    intros f [Fc Fw]. unfold both_flags. cbn. exact Fw.
Qed.

Lemma unflagged_both (f : face) : unflagged f -> both_flags f = false.
Proof. intros [Fc _]. unfold both_flags. now rewrite Fc. Qed.

Lemma face_rows :
  forall rows num m m' n,
    1 <= num ->
    NoDup (flat_map (fun ints => match ints with
                                 | i :: _ => [i]
                                 | [] => []
                                 end) rows) ->
    (forall k f, nth_error (faces m) k = Some f ->
                 both_flags f = false /\
                 (In (Z.of_nat k)
                     (flat_map (fun ints => match ints with
                                            | i :: _ => [i]
                                            | [] => []
                                            end) rows) -> unflagged f)) ->
    read_lines face_line rows num m = Done (m', n) ->
    Forall (fun f => both_flags f = false) (faces m').
Proof.
  induction rows as [|ints rest IH]; intros num m m' n N ND Q R;
    cbn [read_lines] in R.
  - inversion R; subst. apply Forall_forall. intros f Hf.
    apply In_nth_error in Hf. destruct Hf as (k & Hk). now apply (Q k f).
  - destruct (num <? max m).
    + apply lbind_done in R. destruct R as (m1 & L & R).
      destruct ints as [|i t].
      * unfold face_line in L.
        destruct (num =? 0) eqn:E0; [apply Z.eqb_eq in E0; lia|].
        cbn in L. inversion L; subst.
        eapply IH; [|exact ND|exact Q|exact R]. lia.
      * cbn [flat_map app] in ND, Q. inversion ND as [|x l Hnot ND']; subst.
        destruct (face_line_row num i t m m1 N L) as (_ & g & Hi & U & G).
        eapply IH; [|exact ND'| |exact R]; [lia|].
        intros k f1 Hk. rewrite (upd_nth g _ _ _ k U) in Hk.
        destruct (Nat.eqb k (Z.to_nat i)) eqn:Ek.
        -- apply Nat.eqb_eq in Ek.
           destruct (nth_error (faces m) k) as [f|] eqn:Hf; [|discriminate].
           cbn in Hk. inversion Hk; subst f1.
           destruct (Q k f Hf) as [_ Qu].
           assert (Un : unflagged f) by (apply Qu; left; lia).
           split; [now apply G|]. intros Hin. exfalso. apply Hnot.
           replace i with (Z.of_nat k) by lia. exact Hin.
        -- destruct (Q k f1 Hk) as [Qb Qu]. split; [exact Qb|].
           intros Hin. apply Qu. now right.
    + inversion R; subst. apply Forall_forall. intros f Hf.
      apply In_nth_error in Hf. destruct Hf as (k & Hk). now apply (Q k f).
Qed.

(** X18. [load_tet_face] marks a face as wall or as constrained, not as
    both: loaded into a mesh without flagged faces from a file in which no
    face index occurs in two rows, no face ends up with both flags. *)
Theorem load_tet_face_flags_exclusive (lines : list (list Z))
    (m m' : tetrahedra_mesh) (n : Z) :
  Forall unflagged (faces m) ->
  NoDup (row_indices lines) ->
  load_tet_face (Some lines) m = Done (m', n) ->
  Forall (fun f => both_flags f = false) (faces m').
Proof.
  intros F ND R. unfold load_tet_face, load in R.
  assert (Q : forall (q : list face) (pend : list Z),
             Forall unflagged q ->
             forall k f, nth_error q k = Some f ->
                         both_flags f = false /\ (In (Z.of_nat k) pend -> unflagged f)).
  { intros q pend Fq k f Hk. apply nth_error_In in Hk.
    rewrite Forall_forall in Fq. specialize (Fq f Hk).
    split; [now apply unflagged_both|auto]. }
  destruct lines as [|header rows]; cbn [read_lines] in R.
  - inversion R; subst. eapply Forall_impl; [|exact F]. apply unflagged_both.
  - destruct (0 <? max m).
    + apply lbind_done in R. destruct R as (m1 & L & R).
      unfold face_line in L. change (0 =? 0) with true in L. cbv iota in L.
      apply lbind_done in L. destruct L as (c & _ & L). inversion L; subst.
      eapply face_rows; [| |  |exact R]; [lia|exact ND|].
      apply Q. cbn [faces set_faces]. apply resize_Forall; [split; reflexivity|exact F].
    + inversion R; subst. eapply Forall_impl; [|exact F]. apply unflagged_both.
Qed.

Lemma load_tet_face_flags_exclusive_witness :
  Forall (fun f => both_flags f = false)
    [mk_face (Some 0) (Some 1) (Some 2) (Some 3) false true;
     mk_face (Some 1) (Some 2) (Some 3) (Some 4) true false].
Proof.
  apply (load_tet_face_flags_exclusive
           [[2]; [0; 1; 2; 3; -1; -1; 5]; [1; 2; 3; 4; -1; 6; 7]]
           (fresh 0 0 0 1000000000)
           (mk_tetrahedra_mesh 0 2 0 []
              [mk_face (Some 0) (Some 1) (Some 2) (Some 3) false true;
               mk_face (Some 1) (Some 2) (Some 3) (Some 4) true false]
              [] 1000000000) 3).
  - constructor.
  - vm_compute.
    repeat (constructor; [simpl; intuition discriminate|]). constructor.
  - vm_compute. reflexivity.
Defined.

(** The premise on the rows is needed: a face listed twice, once with a
    missing neighbour and once with the marker in column 4, has both flags. *)
Lemma load_tet_face_repeated_row :
  load_tet_face (Some [[1]; [0; 1; 2; 3; 0; -1; 5]; [0; 1; 2; 3; -1; 4; 5]])
    (fresh 0 0 0 1000000000)
  = Done (mk_tetrahedra_mesh 0 1 0 []
            [mk_face (Some 0) (Some 1) (Some 2) (Some 3) true true] []
            1000000000, 3).
Proof. vm_compute. reflexivity. Qed.

Lemma to_u32_small (n : Z) : 0 <= n < 2 ^ 32 -> to_u32 n = n.
Proof. intros H. unfold to_u32. now apply Z.mod_small. Qed.

(** X19. The element file and the face-of-tetrahedron file do not number
    the tetrahedra alike. After a header announcing [n] tetrahedra,
    [load_tet_ele] accepts a row numbered [k] exactly when [0 <= k < n];
    [load_tet_t2f] accepts a row numbered [k] for a mesh of [n]
    tetrahedra exactly when [1 <= k <= n], and throws on the row 0. *)
Theorem ele_rows_from_0_t2f_rows_from_1 (n k a b c d tn fn en mx : Z)
    (m : tetrahedra_mesh) :
  1 < mx -> 0 <= n < 2 ^ 32 -> 0 < max m -> - 2 ^ 31 < k ->
  accepted (load_tet_ele (Some [[n]; [k; a; b; c; d]]) (fresh tn fn en mx))
    = (0 <=? k) && (k <? n) /\
  accepted (load_tet_t2f (Some [[k; a; b; c; d]]) m)
    = (1 <=? k) && (k <=? Z.of_nat (length (tetrahedras m))).
Proof.
  intros Hmx Hn Hm Hk. split.
  - unfold load_tet_ele, load, fresh. cbn [read_lines max].
    replace (0 <? mx) with true by (symmetry; apply Z.ltb_lt; lia).
    unfold ele_line at 1. change (0 =? 0) with true. cbv iota.
    cbn [vec_at nth_error lbind]. rewrite (to_u32_small n Hn).
    cbn [max set_tets tetrahedras].
    replace (0 + 1 <? mx) with true by (symmetry; apply Z.ltb_lt; lia).
    unfold ele_line. change (0 + 1 =? 0) with false. cbv iota.
    cbn [length Nat.eqb negb vec_at nth_error lbind tetrahedras set_tets tetnum].
    set (q := resize n tet1 []).
    assert (Lq : Z.of_nat (length q) = n) by (unfold q; rewrite resize_length; lia).
    pose proof (deque_set_accepted q k (set_number (to_u32 k))) as A1.
    rewrite Lq in A1. rewrite <- A1.
    destruct (deque_set q k (set_number (to_u32 k))) as [q1| |] eqn:S1;
      cbn [lbind accepted]; try reflexivity.
    apply deque_set_done in S1. destruct S1 as [Hi U1].
    assert (Hlt : (Z.to_nat k < length q1)%nat).
    { rewrite (upd_length _ _ _ _ U1).
      destruct (Nat.lt_ge_cases (Z.to_nat k) (length q)) as [|Ge]; [assumption|].
      rewrite (upd_none _ q _ Ge) in U1. discriminate. }
    destruct (upd_some (set_nindex a b c d) q1 _ Hlt) as (q2 & U2).
    unfold deque_set. destruct (k <? 0) eqn:E; [apply Z.ltb_lt in E; lia|].
    rewrite U2. reflexivity.
  - unfold load_tet_t2f, load. cbn [read_lines].
    replace (0 <? max m) with true by (symmetry; apply Z.ltb_lt; lia).
    unfold t2f_line. cbn [length Nat.eqb negb vec_at nth_error lbind].
    destruct (k =? - 2 ^ 31) eqn:E; [apply Z.eqb_eq in E; lia|].
    pose proof (deque_set_accepted (tetrahedras m) (k - 1) (set_findex a b c d)) as A1.
    destruct (deque_set (tetrahedras m) (k - 1) (set_findex a b c d)) as [q1| |];
      cbn [lbind accepted read_lines] in *; rewrite A1;
      destruct (0 <=? k - 1) eqn:E1, (1 <=? k) eqn:E2,
               (k - 1 <? Z.of_nat (length (tetrahedras m))) eqn:E3,
               (k <=? Z.of_nat (length (tetrahedras m))) eqn:E4;
      try reflexivity; exfalso;
      rewrite ?Z.leb_le, ?Z.leb_gt, ?Z.ltb_lt, ?Z.ltb_ge in *; lia.
Qed.

Lemma ele_rows_from_0_t2f_rows_from_1_witness :
  accepted (load_tet_ele (Some [[2]; [2; 1; 2; 3; 4]]) (fresh 0 0 0 1000000000))
    = (0 <=? 2) && (2 <? 2) /\
  accepted (load_tet_t2f (Some [[2; 1; 2; 3; 4]])
              (mk_tetrahedra_mesh 2 0 0 [tet1; tet1] [] [] 1000000000))
    = (1 <=? 2) && (2 <=? Z.of_nat 2).
Proof.
  apply (ele_rows_from_0_t2f_rows_from_1 2 2 1 2 3 4 0 0 0 1000000000
           (mk_tetrahedra_mesh 2 0 0 [tet1; tet1] [] [] 1000000000));
    simpl; lia.
Defined.

(** X20. After a load of a file with a header line, the count member is
    the count of the header, converted to [uint32_t], and the collection
    has that many records: the rows rewrite records and never add one. *)
Theorem header_count_is_collection_size (n : Z) (h : list Z) (rows : list (list Z))
    (m : tetrahedra_mesh) :
  0 < max m ->
  (forall m' k, load_tet_ele (Some ((n :: h) :: rows)) m = Done (m', k) ->
                tetnum m' = to_u32 n /\
                Z.of_nat (length (tetrahedras m')) = to_u32 n) /\
  (forall m' k, load_tet_face (Some ((n :: h) :: rows)) m = Done (m', k) ->
                facenum m' = to_u32 n /\
                Z.of_nat (length (faces m')) = to_u32 n) /\
  (forall m' k, load_tet_edge (Some ((n :: h) :: rows)) m = Done (m', k) ->
                edgenum m' = to_u32 n /\
                Z.of_nat (length (edges m')) = to_u32 n).
Proof.
  intros Hm.
  assert (U : 0 <= to_u32 n) by (unfold to_u32; apply Z.mod_pos_bound; lia).
  split; [|split]; intros m' k R;
    unfold load_tet_ele, load_tet_face, load_tet_edge, load in R;
    cbn [read_lines] in R;
    replace (0 <? max m) with true in R by (symmetry; apply Z.ltb_lt; lia);
    apply lbind_done in R; destruct R as (m1 & L & R).
  - unfold ele_line in L. change (0 =? 0) with true in L. cbv iota in L.
    cbn [vec_at nth_error lbind] in L. inversion L as [Em1]; clear L.
    apply (read_lines_inv
             (fun m0 => tetnum m0 = to_u32 n /\
                        Z.of_nat (length (tetrahedras m0)) = to_u32 n)
             ele_line 1 rows) with (lines := rows) (num := 0 + 1) (m := m1) (n := k);
      [ |apply incl_refl|lia| |exact R].
    + intros num ints m0 m0' N _ [P1 P2] L0. apply ele_line_keeps in L0.
      destruct L0 as [_ L0]. destruct (L0 N) as [-> ->]. auto.
    + subst m1. cbn. rewrite resize_length. split; [reflexivity|lia].
  - unfold face_line in L. change (0 =? 0) with true in L. cbv iota in L.
    cbn [vec_at nth_error lbind] in L. inversion L as [Em1]; clear L.
    apply (read_lines_inv
             (fun m0 => facenum m0 = to_u32 n /\
                        Z.of_nat (length (faces m0)) = to_u32 n)
             face_line 1 rows) with (lines := rows) (num := 0 + 1) (m := m1) (n := k);
      [ |apply incl_refl|lia| |exact R].
    + intros num ints m0 m0' N _ [P1 P2] L0. apply face_line_keeps in L0.
      destruct L0 as [_ L0]. destruct (L0 N) as [-> ->]. auto.
    + subst m1. cbn. rewrite resize_length. split; [reflexivity|lia].
  - unfold edge_line in L. change (0 =? 0) with true in L. cbv iota in L.
    cbn [vec_at nth_error lbind] in L. inversion L as [Em1]; clear L.
    apply (read_lines_inv
             (fun m0 => edgenum m0 = to_u32 n /\
                        Z.of_nat (length (edges m0)) = to_u32 n)
             edge_line 1 rows) with (lines := rows) (num := 0 + 1) (m := m1) (n := k);
      [ |apply incl_refl|lia| |exact R].
    + intros num ints m0 m0' N _ [P1 P2] L0. apply edge_line_keeps in L0.
      destruct L0 as [_ L0]. destruct (L0 N) as [-> ->]. auto.
    + subst m1. cbn. rewrite resize_length. split; [reflexivity|lia].
Qed.

Lemma header_count_is_collection_size_witness :
  (forall m' k, load_tet_ele (Some ([2] :: [[0; 1; 2; 3; 4]])) (fresh 0 0 0 9)
                = Done (m', k) ->
                tetnum m' = to_u32 2 /\
                Z.of_nat (length (tetrahedras m')) = to_u32 2) /\
  (forall m' k, load_tet_face (Some ([2] :: [[0; 1; 2; 3; 4]])) (fresh 0 0 0 9)
                = Done (m', k) ->
                facenum m' = to_u32 2 /\
                Z.of_nat (length (faces m')) = to_u32 2) /\
  (forall m' k, load_tet_edge (Some ([2] :: [[0; 1; 2; 3; 4]])) (fresh 0 0 0 9)
                = Done (m', k) ->
                edgenum m' = to_u32 2 /\
                Z.of_nat (length (edges m')) = to_u32 2).
Proof.
  apply (header_count_is_collection_size 2 [] [[0; 1; 2; 3; 4]] (fresh 0 0 0 9)).
  reflexivity.
Defined.
